(** * AdventureEngine: the turn orchestrator, the scene cache and the
      Gemini service wrappers, embedded from [src/App.tsx],
      [services/geminiService.ts] and [types.ts]. *)

From Stdlib Require Import ZArith QArith Lia List Bool.
From stdpp Require Import gmap strings list fin_maps.
Import ListNotations.

Set Warnings "-register-all".

Open Scope string_scope.
Open Scope Z_scope.
Open Scope list_scope.
Open Scope stdpp_scope.

(** ** JavaScript values as they come out of [JSON.parse] *)

Module JS.

(** Numbers are kept as integers: the only numbers the code looks at are
    box coordinates, which the response schema declares [Type.INTEGER],
    and the only thing the code asks of a number is whether it is zero. *)
Inductive json : Type :=
| JNull
| JBool (b : bool)
| JNum (n : Z)
| JStr (s : string)
| JArr (items : list json)
| JObj (props : list (string * json)).

(** [ToBoolean]: [null], [false], [0] and the empty string are falsy. *)
Definition truthy (v : json) : bool :=
  match v with
  | JNull => false
  | JBool b => b
  | JNum n => negb (n =? 0)
  | JStr s => negb (String.eqb s "")
  | JArr _ | JObj _ => true
  end.

(** A property read gives [None] for [undefined]. *)
Definition truthy_u (v : option json) : bool :=
  match v with Some v => truthy v | None => false end.

Fixpoint own (k : string) (props : list (string * json)) : option json :=
  match props with
  | [] => None
  | (k', v) :: rest => if String.eqb k k' then Some v else own k rest
  end.

(** [v.k] for a [v] that is neither [null] nor [undefined]; none of the
    keys read by the code ([hotspots], [name], [box]) exists on a
    primitive, an array or [Object.prototype]. *)
Definition member (v : json) (k : string) : option json :=
  match v with
  | JObj props => own k props
  | _ => None
  end.

Definition isArray (v : option json) : bool :=
  match v with Some (JArr _) => true | _ => false end.

(** [v.length] for a [v] on which [Array.isArray] held. *)
Definition array_length (v : option json) : Z :=
  match v with Some (JArr items) => Z.of_nat (length items) | _ => 0 end.

(** Truthiness of a [string | null] (or optional string) field. *)
Definition truthy_str (s : option string) : bool :=
  match s with
  | Some s => negb (String.eqb s "")
  | None => false
  end.

(** [a || b] on [string | null]. *)
Definition or_str (a b : option string) : option string :=
  if truthy_str a then a else b.

(** [a || d] where [d] is a string literal. *)
Definition or_default (a : option string) (d : string) : string :=
  match a with
  | Some s => if String.eqb s "" then d else s
  | None => d
  end.

End JS.
Import JS.

(** ** types.ts *)

Inductive LogType : Type := narrator | command | error.

Record LogEntry : Type := mkLogEntry { type : LogType; text : string }.

(** [Hotspot] is a compile-time annotation: at run time a hotspot is
    whatever entry of the detection reply passed the filter of
    [detectSceneHotspots]. *)
Definition Hotspot : Type := json.

Record SceneData : Type := mkSceneData {
  sd_id : string;
  sd_visualDescription : string;
  sd_imageUrl : string;
  sd_hotspots : list Hotspot;
  sd_interactables : list string
}.

(** ** The scene cache: a plain object used as a map *)

Module SceneCache.

(** The object behind [sceneCache]: its own properties, one artifact per
    scene id, and its prototype, which is [Object.prototype] ([None])
    unless an assignment to ["__proto__"] has made an artifact the
    prototype. *)
Record t : Type := mk {
  entries : gmap string SceneData;
  prototype : option SceneData
}.

(** [{}] *)
Definition empty : t := mk ∅ None.

(** [{ [k]: v }]: a computed key defines an own property, also for
    ["__proto__"]. *)
Definition literal (k : string) (v : SceneData) : t := mk {[ k := v ]} None.

(** [{ ...c }] copies the own properties into a fresh object, whose
    prototype is [Object.prototype]. *)
Definition spread (c : t) : t := mk (entries c) None.

(** The members every plain object inherits from [Object.prototype]. *)
Definition Object_prototype_members : list string :=
  [ "constructor"; "__defineGetter__"; "__defineSetter__"; "hasOwnProperty";
    "__lookupGetter__"; "__lookupSetter__"; "isPrototypeOf";
    "propertyIsEnumerable"; "toString"; "valueOf"; "__proto__";
    "toLocaleString" ].

(** What [c[k]] evaluates to, as far as [handleVisualUpdate] can tell: an
    artifact; some other truthy value (a function, an array, a non-empty
    string, [Object.prototype]), whose [imageUrl] and [hotspots] are
    [undefined]; or a falsy value ([undefined], the empty string). *)
Inductive value : Type :=
| Artifact (a : SceneData)
| Other
| Falsy.

Definition text_value (s : string) : value :=
  if String.eqb s "" then Falsy else Other.

(** The own properties of an artifact object, as seen through an object
    that has it as prototype. *)
Definition field (a : SceneData) (k : string) : option value :=
  if String.eqb k "id" then Some (text_value (sd_id a))
  else if String.eqb k "visualDescription"
       then Some (text_value (sd_visualDescription a))
  else if String.eqb k "imageUrl" then Some (text_value (sd_imageUrl a))
  else if String.eqb k "hotspots" then Some Other
  else if String.eqb k "interactables" then Some Other
  else None.

Definition inherited (k : string) : value :=
  if existsb (String.eqb k) Object_prototype_members then Other else Falsy.

(** [c[k]]: an own property first, then the prototype chain; reading
    ["__proto__"] through the inherited accessor gives the prototype
    itself. *)
Definition get (c : t) (k : string) : value :=
  match entries c !! k with
  | Some a => Artifact a
  | None =>
      if String.eqb k "__proto__" then
        match prototype c with
        | Some a => Artifact a
        | None => Other
        end
      else
        match prototype c with
        | Some a =>
            match field a k with
            | Some v => v
            | None => inherited k
            end
        | None => inherited k
        end
  end.

(** [c[k] = v]: an own property is overwritten; otherwise the assignment
    creates one, except for ["__proto__"], where the inherited setter
    makes [v] the prototype of [c] and no property is created. *)
Definition set (c : t) (k : string) (v : SceneData) : t :=
  match entries c !! k with
  | Some _ => mk (<[ k := v ]> (entries c)) (prototype c)
  | None =>
      if String.eqb k "__proto__" then mk (entries c) (Some v)
      else mk (<[ k := v ]> (entries c)) (prototype c)
  end.

End SceneCache.

Record GameState : Type := mkGameState {
  isPlaying : bool;
  currentSceneId : option string;
  inventory : list string;
  history : list LogEntry;
  imageUrl : option string;
  hotspots : list Hotspot;
  isLoading : bool;
  loadingMessage : string;
  gameOver : bool;
  theme : string;
  sceneCache : SceneCache.t
}.

Record AdventureResponse : Type := mkAdventureResponse {
  narrative : string;
  scene_id : string;
  visual_description : string;
  trigger_visual_update : bool;
  interactables : list string;
  inventory_add : option string;
  inventory_remove : option string;
  is_game_over : option bool
}.

Module Verb.
Inductive t : Type :=
| Give | Open | Close | PickUp | LookAt | TalkTo | Use | Push | Pull | WalkTo.

(** The string each member of the enum stands for. *)
Definition value (v : t) : string :=
  match v with
  | Give => "Give"
  | Open => "Open"
  | Close => "Close"
  | PickUp => "Pick up"
  | LookAt => "Look at"
  | TalkTo => "Talk to"
  | Use => "Use"
  | Push => "Push"
  | Pull => "Pull"
  | WalkTo => "Walk to"
  end.

(** [selectedVerb === Verb.Use] *)
Definition is_Use (v : option t) : bool :=
  match v with
  | Some Use => true
  | _ => false
  end.
End Verb.

(** ** The running application: React state, remote calls and their trace *)

(** One entry per request sent to the remote model, in the order the
    requests leave; a request is identified by the arguments its prompt is
    built from.  [VisualUpdateEntered] is a ghost entry marking each call
    of [handleVisualUpdate]. *)
Inductive Event : Type :=
| StartRequest (theme : string)
| ActionRequest (action historyContext : string) (inventory : list string)
    (currentSceneId : option string)
| ImageRequest (visualDescription : string)
| HotspotRequest (imageBase64 : string) (items : list string)
| SpeechRequest (text : string)
| VisualUpdateEntered (sceneId : string) (triggerUpdate : bool).

(** What a [generateContent] call for JSON can come back with, classified
    by how the code after it reacts. *)
Inductive Reply (A : Type) : Type :=
| Rejected            (* the call throws *)
| NoText              (* [response.text] is undefined or empty *)
| BadJson             (* [JSON.parse(text)] throws *)
| Parsed (a : A).     (* [JSON.parse(text)] evaluates to [a] *)
Arguments Rejected {A}.
Arguments NoText {A}.
Arguments BadJson {A}.
Arguments Parsed {A} a.

(** What a [generateContent] call for an image or for audio comes back
    with. *)
Inductive MediaReply : Type :=
| MediaRejected
| NoInlineData
| InlineData (mimeType data : string).

(** The remote model.  The narrative reply is cast to [AdventureResponse]
    without validation, so a parsed reply is taken at its declared type. *)
Record Remote : Type := mkRemote {
  start_reply : string -> Reply AdventureResponse;
  action_reply :
    string -> string -> list string -> option string -> Reply AdventureResponse;
  image_reply : string -> MediaReply;
  hotspot_reply : string -> list string -> Reply json;
  speech_reply : string -> MediaReply
}.

Record World : Type := mkWorld {
  gameState : GameState;               (* the React state behind [setGameState] *)
  selectedVerb : option Verb.t;
  selectedItem : option string;
  customInput : string;
  isMuted : bool;
  audioContext : bool;                 (* [audioContextRef.current] is set *)
  trace : list Event
}.

Definition M (A : Type) : Type := World -> A * World.

Definition ret {A} (a : A) : M A := fun w => (a, w).

Definition bind {A B} (m : M A) (k : A -> M B) : M B :=
  fun w => let '(a, w') := m w in k a w'.

Declare Scope m_scope.
Delimit Scope m_scope with m.
Notation "'let!' x ':=' m 'in' k" := (bind m (fun x => k))
  (at level 10, x pattern, m at level 100, k at level 200) : m_scope.
Notation "m ;; k" := (bind m (fun _ => k))
  (at level 100, k at level 200, only parsing, right associativity) : m_scope.
Open Scope m_scope.

Definition setGameState (f : GameState -> GameState) : M unit :=
  fun w => (tt, mkWorld (f (gameState w)) (selectedVerb w) (selectedItem w)
                  (customInput w) (isMuted w) (audioContext w) (trace w)).

Definition emit (e : Event) : M unit :=
  fun w => (tt, mkWorld (gameState w) (selectedVerb w) (selectedItem w)
                  (customInput w) (isMuted w) (audioContext w) (trace w ++ [e])).

Definition initAudio : M unit :=
  fun w => (tt, mkWorld (gameState w) (selectedVerb w) (selectedItem w)
                  (customInput w) (isMuted w) true (trace w)).

Definition clearSelection : M unit :=
  fun w => (tt, mkWorld (gameState w) None None "" (isMuted w)
                  (audioContext w) (trace w)).

Definition getMuted : M bool := fun w => (isMuted w, w).

Definition setSelectedItem (item : option string) : M unit :=
  fun w => (tt, mkWorld (gameState w) (selectedVerb w) item
                  (customInput w) (isMuted w) (audioContext w) (trace w)).

(** ** services/geminiService.ts *)

Module GeminiService.

(** What the body of a [try] block raised. *)
Inductive Thrown : Type :=
| ApiError            (* the rejected [generateContent] call *)
| NoResponse          (* [throw new Error("No response")] *)
| SyntaxError         (* from [JSON.parse] *)
| TypeError.          (* a property read on [null], a call of a non-function *)

(** [try { body } catch (error) { return handler }] *)
Definition catch {A} (body : Thrown + A) (handler : A) : A :=
  match body with
  | inr a => a
  | inl _ => handler
  end.

Section WithRemote.

Variable remote : Remote.

(** The [try] block shared by [generateAdventureStart] and
    [processGameAction], after the request was sent. *)
Definition narrative_try (r : Reply AdventureResponse)
  : Thrown + AdventureResponse :=
  match r with
  | Rejected => inl ApiError
  | NoText => inl NoResponse
  | BadJson => inl SyntaxError
  | Parsed a => inr a
  end.

Definition start_fallback : AdventureResponse :=
  {| narrative := "The system is rebooting...";
     scene_id := "error_room";
     visual_description := "Static screen";
     trigger_visual_update := true;
     interactables := [];
     inventory_add := None;
     inventory_remove := None;
     is_game_over := None |}.

Definition generateAdventureStart (theme : string) : M AdventureResponse :=
  emit (StartRequest theme) ;;
  ret (catch (narrative_try (start_reply remote theme)) start_fallback).

Definition action_fallback (currentSceneId : option string)
  : AdventureResponse :=
  {| narrative := "I didn't quite get that.";
     scene_id := or_default currentSceneId "unknown";
     visual_description := "No change.";
     trigger_visual_update := false;
     interactables := [];
     inventory_add := None;
     inventory_remove := None;
     is_game_over := None |}.

Definition processGameAction (action historyContext : string)
    (inventory : list string) (currentSceneId : option string)
  : M AdventureResponse :=
  emit (ActionRequest action historyContext inventory currentSceneId) ;;
  ret (catch
         (narrative_try
            (action_reply remote action historyContext inventory currentSceneId))
         (action_fallback currentSceneId)).

(** The [try] block of [generateSceneImage]. *)
Definition image_try (r : MediaReply) : Thrown + option string :=
  match r with
  | MediaRejected => inl ApiError
  | NoInlineData => inr None
  | InlineData mimeType data =>
      inr (Some ("data:" +:+ mimeType +:+ ";base64," +:+ data))
  end.

(** The [try] block of [generateNarratorAudio]. *)
Definition audio_try (r : MediaReply) : Thrown + option string :=
  match r with
  | MediaRejected => inl ApiError
  | NoInlineData => inr None
  | InlineData _ data => inr (Some data)
  end.

Definition generateSceneImage (visualDescription : string)
  : M (option string) :=
  emit (ImageRequest visualDescription) ;;
  ret (catch (image_try (image_reply remote visualDescription)) None).

(** The predicate handed to [rawHotspots.filter]:
    [h && h.name && Array.isArray(h.box) && h.box.length === 4]. *)
Definition keepHotspot (h : json) : bool :=
  truthy h
  && truthy_u (member h "name")
  && isArray (member h "box")
  && (array_length (member h "box") =? 4).

(** The [try] block of [detectSceneHotspots], after the request was
    sent. *)
Definition hotspots_try (r : Reply json) : Thrown + list Hotspot :=
  match r with
  | Rejected => inl ApiError
  | NoText => inr []
  | BadJson => inl SyntaxError
  | Parsed JNull => inl TypeError
  | Parsed result =>
      let rawHotspots :=
        match member result "hotspots" with
        | Some v => if truthy v then v else JArr []
        | None => JArr []
        end in
      match rawHotspots with
      | JArr entries => inr (List.filter keepHotspot entries)
      | _ => inl TypeError
      end
  end.

Definition detectSceneHotspots (imageBase64 : string) (items : list string)
  : M (list Hotspot) :=
  if (Z.of_nat (length items) =? 0) then ret []
  else
    emit (HotspotRequest imageBase64 items) ;;
    ret (catch (hotspots_try (hotspot_reply remote imageBase64 items)) []).

Definition generateNarratorAudio (text : string) : M (option string) :=
  emit (SpeechRequest text) ;;
  ret (catch (audio_try (speech_reply remote text)) None).

End WithRemote.

End GeminiService.
Import GeminiService.

(** ** App.tsx *)

Module App.

Definition INITIAL_STATE : GameState :=
  {| isPlaying := false;
     currentSceneId := None;
     inventory := [];
     history := [];
     imageUrl := None;
     hotspots := [];
     isLoading := false;
     loadingMessage := "";
     gameOver := false;
     theme := "";
     sceneCache := SceneCache.empty |}.

(** *** Audio engine *)

Record AudioBuffer : Type := mkAudioBuffer {
  numberOfChannels : Z;
  sampleRate : Z;
  channelData : list Q
}.

Definition byte_value (b : Byte.byte) : Z := Z.of_N (Byte.to_N b).

(** [new Int16Array(data.buffer)] on a buffer of even length: pairs of
    bytes, low byte first, read as two's-complement 16-bit integers. *)
Fixpoint Int16Array (data : list Byte.byte) : list Z :=
  match data with
  | lo :: hi :: rest =>
      let u := byte_value lo + 256 * byte_value hi in
      (if u <? 32768 then u else u - 65536) :: Int16Array rest
  | _ => []
  end.

(** The division by [32768.0] is exact in floating point (a 16-bit integer
    over a power of two), so the samples are the rationals [n / 32768]. *)
Definition decodeAudioData (data : list Byte.byte) : AudioBuffer :=
  let data :=
    if negb (Z.of_nat (length data) mod 2 =? 0)
    then data ++ [Byte.x00]
    else data in
  let dataInt16 := Int16Array data in
  {| numberOfChannels := 1;
     sampleRate := 24000;
     channelData := map (fun n => (inject_Z n / inject_Z 32768)%Q) dataInt16 |}.

Section WithRemote.

Variable remote : Remote.

(** The speech request leaves at once; what comes back is decoded with
    [decodeAudioData] and handed to the audio output, outside the world
    modelled here. *)
Definition playAudio (text : string) : M unit :=
  let! muted := getMuted in
  if muted then ret tt
  else
    initAudio ;;
    let! _ := generateNarratorAudio remote text in
    ret tt.

(** *** Visual logic *)

Definition set_loadingMessage (msg : string) (prev : GameState) : GameState :=
  {| isPlaying := isPlaying prev;
     currentSceneId := currentSceneId prev;
     inventory := inventory prev;
     history := history prev;
     imageUrl := imageUrl prev;
     hotspots := hotspots prev;
     isLoading := isLoading prev;
     loadingMessage := msg;
     gameOver := gameOver prev;
     theme := theme prev;
     sceneCache := sceneCache prev |}.

(** What [handleVisualUpdate] resolves to: [{ image, hotspots }], or
    [{ image: undefined, hotspots: undefined }] when the cache lookup hit
    something that is no artifact. *)
Inductive VisualResult : Type :=
| Visuals (image : option string) (hotspots : list Hotspot)
| Undefined.

(** [gs] is the [gameState] of the render in which the handler was
    created; the handlers read it and write through [setGameState]. *)
Definition handleVisualUpdate (gs : GameState) (sceneId visualDesc : string)
    (triggerUpdate : bool) (interactables : list string)
  : M VisualResult :=
  emit (VisualUpdateEntered sceneId triggerUpdate) ;;
  match (if negb triggerUpdate
         then SceneCache.get (sceneCache gs) sceneId
         else SceneCache.Falsy) with
  | SceneCache.Artifact cached =>
      ret (Visuals (Some (sd_imageUrl cached)) (sd_hotspots cached))
  | SceneCache.Other => ret Undefined
  | SceneCache.Falsy =>
      setGameState (set_loadingMessage "Rendering Scene...") ;;
      let! image := generateSceneImage remote visualDesc in
      match image with
      | None => ret (Visuals None [])
      | Some img =>
          if String.eqb img "" then ret (Visuals None [])
          else if 0 <? Z.of_nat (length interactables) then
            setGameState (set_loadingMessage "Analyzing Objects...") ;;
            let! hotspots := detectSceneHotspots remote img interactables in
            ret (Visuals (Some img) hotspots)
          else ret (Visuals (Some img) [])
      end
  end.

Definition handleStartGame (gs : GameState) (themeInput : string) : M unit :=
  initAudio ;;
  setGameState (fun prev =>
    {| isPlaying := true;
       currentSceneId := currentSceneId prev;
       inventory := inventory prev;
       history := history prev;
       imageUrl := imageUrl prev;
       hotspots := hotspots prev;
       isLoading := true;
       loadingMessage := "Initializing World...";
       gameOver := gameOver prev;
       theme := themeInput;
       sceneCache := sceneCache prev |}) ;;
  let! response := generateAdventureStart remote themeInput in
  let! result :=
    handleVisualUpdate gs (scene_id response) (visual_description response)
      true (interactables response) in
  (* with [triggerUpdate] true the cache is not read, so the result is
     never [Undefined] *)
  let '(image, hotspots) :=
    match result with
    | Visuals image hotspots => (image, hotspots)
    | Undefined => (None, [])
    end in
  setGameState (fun prev =>
    {| isPlaying := isPlaying prev;
       currentSceneId := Some (scene_id response);
       inventory :=
         match inventory_add response with
         | Some item => if String.eqb item "" then [] else [item]
         | None => []
         end;
       history := [ {| type := narrator; text := narrative response |} ];
       imageUrl := image;
       hotspots := hotspots;
       isLoading := false;
       loadingMessage := loadingMessage prev;
       gameOver := gameOver prev;
       theme := theme prev;
       sceneCache :=
         SceneCache.literal (scene_id response)
           {| sd_id := scene_id response;
              sd_imageUrl := or_default image "";
              sd_hotspots := hotspots;
              sd_visualDescription := visual_description response;
              sd_interactables := interactables response |} |}) ;;
  playAudio (narrative response).

(** *** One player turn *)

Definition newline : string := String (Ascii.ascii_of_nat 10) EmptyString.

(** [history.slice(-5).map(h => h.text).join("\n")] *)
Definition historyContext (history : list LogEntry) : string :=
  String.concat newline
    (map text (skipn (length history - 5)%nat history)).

Definition includes (l : list string) (x : string) : bool :=
  existsb (String.eqb x) l.

(** The "Handle Inventory" block. *)
Definition newInventory (inventory : list string)
    (inventory_add inventory_remove : option string) : list string :=
  let added :=
    match inventory_add with
    | Some item =>
        if negb (String.eqb item "") && negb (includes inventory item)
        then inventory ++ [item]
        else inventory
    | None => inventory
    end in
  match inventory_remove with
  | Some item =>
      if negb (String.eqb item "")
      then List.filter (fun i => negb (String.eqb i item)) added
      else added
  | None => added
  end.

(** [(response.scene_id !== gameState.currentSceneId) ||
     response.trigger_visual_update] *)
Definition needsUpdate (gs : GameState) (response : AdventureResponse) : bool :=
  negb (bool_decide (Some (scene_id response) = currentSceneId gs))
  || trigger_visual_update response.

(** The "Handle Visuals" block: the image and hotspots to show next, or
    the [TypeError] of reading [visualResult.hotspots.length] when the
    hotspots are [undefined]. *)
Definition resolveVisuals (gs : GameState) (response : AdventureResponse)
  : M (Thrown + (option string * list Hotspot)) :=
  if needsUpdate gs response then
    let! visualResult :=
      handleVisualUpdate gs (scene_id response) (visual_description response)
        (trigger_visual_update response) (interactables response) in
    match visualResult with
    | Visuals image found =>
        ret (inr (or_str image (imageUrl gs),
                  if 0 <? Z.of_nat (length found) then found else []))
    | Undefined => ret (inl TypeError)
    end
  else ret (inr (imageUrl gs, hotspots gs)).

Definition executeCommand (gs : GameState) (fullCommand : string) : M unit :=
  if isLoading gs || gameOver gs then ret tt
  else
    initAudio ;;
    let newHistory :=
      history gs ++ [ {| type := command; text := "> " +:+ fullCommand |} ] in
    setGameState (fun prev =>
      {| isPlaying := isPlaying prev;
         currentSceneId := currentSceneId prev;
         inventory := inventory prev;
         history := newHistory;
         imageUrl := imageUrl prev;
         hotspots := hotspots prev;
         isLoading := true;
         loadingMessage := "Thinking...";
         gameOver := gameOver prev;
         theme := theme prev;
         sceneCache := sceneCache prev |}) ;;
    let! response :=
      processGameAction remote fullCommand (historyContext (history gs))
        (inventory gs) (currentSceneId gs) in
    let newInv :=
      newInventory (inventory gs) (inventory_add response)
        (inventory_remove response) in
    let! visuals := resolveVisuals gs response in
    match visuals with
    | inl _ =>
        (* the exception leaves the handler: nothing below is run *)
        ret tt
    | inr (newImage, newHotspots) =>
        setGameState (fun prev =>
          let nextCache := SceneCache.spread (sceneCache prev) in
          let nextCache :=
            match newImage with
            | Some img =>
                if String.eqb img "" then nextCache
                else
                  SceneCache.set nextCache (scene_id response)
                    {| sd_id := scene_id response;
                       sd_imageUrl := img;
                       sd_hotspots := newHotspots;
                       sd_visualDescription := visual_description response;
                       sd_interactables := interactables response |}
            | None => nextCache
            end in
          {| isPlaying := isPlaying prev;
             currentSceneId := Some (scene_id response);
             inventory := newInv;
             history :=
               newHistory
                 ++ [ {| type := narrator; text := narrative response |} ];
             imageUrl := newImage;
             hotspots := newHotspots;
             isLoading := false;
             loadingMessage := loadingMessage prev;
             gameOver :=
               match is_game_over response with Some b => b | None => false end;
             theme := theme prev;
             sceneCache := nextCache |}) ;;
        clearSelection ;;
        playAudio (narrative response)
    end.

(** *** The handlers behind the scene, the inventory and the input line *)

(** The effect that rebuilds the command line shown to the player. *)
Definition commandLine (selectedVerb : option Verb.t)
    (selectedItem : option string) : string :=
  let cmd := "" in
  let cmd :=
    match selectedVerb with
    | Some verb => cmd +:+ Verb.value verb
    | None => cmd
    end in
  let cmd :=
    match selectedVerb, selectedItem with
    | Some _, Some item =>
        if String.eqb item "" then cmd else cmd +:+ " " +:+ item
    | _, _ => cmd
    end in
  if Verb.is_Use selectedVerb && truthy_str selectedItem
  then cmd +:+ " on "
  else cmd.

(** [selectedVerb] and [selectedItem] are those of the render in which the
    handler was created; the coordinates of the click are not used. *)
Definition handleSceneClick (gs : GameState) (selectedVerb : option Verb.t)
    (selectedItem : option string) (targetName : option string) : M unit :=
  if isLoading gs || gameOver gs then ret tt
  else
    initAudio ;;
    if truthy_str targetName then
      let target := or_default targetName "" in
      if Verb.is_Use selectedVerb && truthy_str selectedItem then
        executeCommand gs
          ("Use " +:+ or_default selectedItem "" +:+ " on " +:+ target)
      else
        match selectedVerb with
        | Some verb => executeCommand gs (Verb.value verb +:+ " " +:+ target)
        | None => executeCommand gs ("Look at " +:+ target)
        end
    else executeCommand gs "Look at surroundings".

(** [String.prototype.trim] is the platform's. *)
Variable trim : string -> string.

Definition handleCustomCommandSubmit (gs : GameState) (customInput : string)
  : M unit :=
  if negb (String.eqb (trim customInput) "")
  then executeCommand gs customInput
  else ret tt.

Definition handleInventoryClick (gs : GameState)
    (selectedVerb : option Verb.t) (selectedItem : option string)
    (item : string) : M unit :=
  if Verb.is_Use selectedVerb && truthy_str selectedItem then
    executeCommand gs
      ("Use " +:+ or_default selectedItem "" +:+ " on " +:+ item)
  else setSelectedItem (Some item).

End WithRemote.

(** A world freshly rendered from [gs]: the handlers of that render see
    [gs], and nothing has been requested yet. *)
Definition render (gs : GameState) (muted : bool) : World :=
  {| gameState := gs;
     selectedVerb := None;
     selectedItem := None;
     customInput := "";
     isMuted := muted;
     audioContext := false;
     trace := [] |}.

End App.
Import App.

(** ** components/SceneDisplay.tsx: which hotspot a click lands on *)

Module SceneDisplay.

(** A JavaScript number as far as comparison goes: a finite double is a
    rational, and [-0] compares equal to [0]. *)
Inductive number : Type :=
| Finite (q : Q)
| PosInfinity
| NegInfinity
| NaN.

(** [a >= b] on numbers. *)
Definition ge (a b : number) : bool :=
  match a, b with
  | NaN, _ | _, NaN => false
  | Finite p, Finite q => Qle_bool q p
  | PosInfinity, _ => true
  | _, NegInfinity => true
  | _, _ => false
  end.

(** [a <= b] on numbers. *)
Definition le (a b : number) : bool := ge b a.

Section WithCoercion.

(** [ToNumber] on the values that are not numbers (strings, booleans,
    [null], arrays, objects) is the platform's. *)
Variable ToNumber : json -> number.

(** The operand [h.box[i]] of a comparison with a number. *)
Definition operand (box : option json) (i : nat) : number :=
  match box with
  | Some (JArr items) =>
      match nth_error items i with
      | Some (JNum n) => Finite (inject_Z n)
      | Some v => ToNumber v
      | None => NaN
      end
  | _ => NaN
  end.

(** The predicate handed to [hotspots.find] by [handleMouseMove] and
    [handleClick], for the mouse at [x] percent of the width and [y]
    percent of the height. *)
Definition under (x y : number) (h : json) : bool :=
  truthy h
  && truthy_u (member h "box")
  && isArray (member h "box")
  && (array_length (member h "box") =? 4)
  && ge y (operand (member h "box") 0)
  && ge x (operand (member h "box") 1)
  && le y (operand (member h "box") 2)
  && le x (operand (member h "box") 3).

Definition hit (hotspots : list Hotspot) (x y : number) : option json :=
  List.find (under x y) hotspots.

(** [hit?.name], the target handed to [onSceneClick]; [None] is
    [undefined]. *)
Definition hitName (hotspots : list Hotspot) (x y : number) : option json :=
  match hit hotspots x y with
  | Some h => member h "name"
  | None => None
  end.

(** The hotspots that get an overlay: the others are skipped by
    [if (!h || !Array.isArray(h.box) || h.box.length < 4) return null]. *)
Definition drawn (h : json) : bool :=
  negb (negb (truthy h)
        || negb (isArray (member h "box"))
        || (array_length (member h "box") <? 4)).

End WithCoercion.

End SceneDisplay.

(** ** Notions used to state the properties *)

(** A remote model none of whose calls succeeds. *)
Definition unreachable : Remote :=
  {| start_reply := fun _ => Rejected;
     action_reply := fun _ _ _ _ => Rejected;
     image_reply := fun _ => MediaRejected;
     hotspot_reply := fun _ _ => Rejected;
     speech_reply := fun _ => MediaRejected |}.

Definition is_image_request (e : Event) : bool :=
  match e with
  | ImageRequest _ => true
  | _ => false
  end.

Definition is_policy_entry (e : Event) : bool :=
  match e with
  | VisualUpdateEntered _ _ => true
  | _ => false
  end.

(** The response [processGameAction] hands to [executeCommand] in a turn
    started from [gs]. *)
Definition turnResponse (remote : Remote) (gs : GameState)
    (fullCommand : string) : AdventureResponse :=
  catch
    (narrative_try
       (action_reply remote fullCommand (historyContext (history gs))
          (inventory gs) (currentSceneId gs)))
    (action_fallback (currentSceneId gs)).

(** The response [generateAdventureStart] hands to [handleStartGame]. *)
Definition startResponse (remote : Remote) (themeInput : string)
  : AdventureResponse :=
  catch (narrative_try (start_reply remote themeInput)) start_fallback.

(** The artifact stored for a scene: what [response] says about it, with
    the given image and hotspots. *)
Definition artifact (response : AdventureResponse) (image : string)
    (found : list Hotspot) : SceneData :=
  {| sd_id := scene_id response;
     sd_imageUrl := image;
     sd_hotspots := found;
     sd_visualDescription := visual_description response;
     sd_interactables := interactables response |}.

(** The detection entries the specification calls well formed: the entry
    has a name and its box is an array of four numbers. *)
Definition numeric_box (v : option json) : bool :=
  match v with
  | Some (JArr [JNum _; JNum _; JNum _; JNum _]) => true
  | _ => false
  end.

Definition wellformed_entry (h : json) : bool :=
  match member h "name" with
  | Some _ => numeric_box (member h "box")
  | None => false
  end.

(** Two React states that differ at most in the loading message. *)
Definition same_but_message (a b : GameState) : Prop :=
  forall msg, set_loadingMessage msg a = set_loadingMessage msg b.

Definition is_narrative_request (e : Event) : bool :=
  match e with
  | StartRequest _ | ActionRequest _ _ _ _ => true
  | _ => false
  end.

Definition is_hotspot_request (e : Event) : bool :=
  match e with
  | HotspotRequest _ _ => true
  | _ => false
  end.

Definition is_speech_request (e : Event) : bool :=
  match e with
  | SpeechRequest _ => true
  | _ => false
  end.

(** How many entries of a trace are of a given kind. *)
Definition count (kind : Event -> bool) (evs : list Event) : nat :=
  length (List.filter kind evs).

(** The world of a turn once the command is logged and the narrative
    request is out: what [executeCommand] has made of [w] when it starts
    to resolve the visuals. *)
Definition awaitingVisuals (gs : GameState) (fullCommand : string)
    (w : World) : World :=
  {| gameState :=
       {| isPlaying := isPlaying (gameState w);
          currentSceneId := currentSceneId (gameState w);
          inventory := inventory (gameState w);
          history :=
            history gs
              ++ [ {| type := command; text := "> " +:+ fullCommand |} ];
          imageUrl := imageUrl (gameState w);
          hotspots := hotspots (gameState w);
          isLoading := true;
          loadingMessage := "Thinking...";
          gameOver := gameOver (gameState w);
          theme := theme (gameState w);
          sceneCache := sceneCache (gameState w) |};
     selectedVerb := selectedVerb w;
     selectedItem := selectedItem w;
     customInput := customInput w;
     isMuted := isMuted w;
     audioContext := true;
     trace := trace w ++ [ActionRequest fullCommand
                            (historyContext (history gs)) (inventory gs)
                            (currentSceneId gs)] |}.

(** What the cache test of [handleVisualUpdate],
    [!triggerUpdate && gameState.sceneCache[sceneId]], comes to. *)
Definition cacheTest (gs : GameState) (sceneId : string)
    (triggerUpdate : bool) : SceneCache.value :=
  if negb triggerUpdate
  then SceneCache.get (sceneCache gs) sceneId
  else SceneCache.Falsy.

(** The turn throws: the response needs the visuals resolved, and the
    cache test hits something that is no artifact. *)
Definition throws (gs : GameState) (response : AdventureResponse) : bool :=
  needsUpdate gs response
  && match cacheTest gs (scene_id response) (trigger_visual_update response)
     with
     | SceneCache.Other => true
     | _ => false
     end.

(** Two worlds that differ at most in the loading message and the trace
    of requests. *)
Definition untouched (w' w : World) : Prop :=
  same_but_message (gameState w') (gameState w)
  /\ selectedVerb w' = selectedVerb w
  /\ selectedItem w' = selectedItem w
  /\ customInput w' = customInput w
  /\ isMuted w' = isMuted w
  /\ audioContext w' = audioContext w.

(** The cache a turn commits: a copy of the own entries, with the
    artifact of the response assigned under its scene id when an image
    is displayed. *)
Definition nextCache (cache : SceneCache.t) (response : AdventureResponse)
    (image : option string) (found : list Hotspot) : SceneCache.t :=
  if truthy_str image
  then SceneCache.set (SceneCache.spread cache) (scene_id response)
         (artifact response (or_default image "") found)
  else SceneCache.spread cache.

(** The image [handleVisualUpdate] generates for a description, the
    hotspots it detects on it, and the requests it sends after the image
    request. *)
Definition generatedImage (remote : Remote) (visualDesc : string)
  : option string :=
  catch (image_try (image_reply remote visualDesc)) None.

Definition detected (remote : Remote) (visualDesc : string)
    (items : list string) : list Hotspot :=
  match generatedImage remote visualDesc with
  | Some img =>
      if 0 <? Z.of_nat (length items)
      then catch (hotspots_try (hotspot_reply remote img items)) []
      else []
  | None => []
  end.

Definition detectionRequests (remote : Remote) (visualDesc : string)
    (items : list string) : list Event :=
  match generatedImage remote visualDesc with
  | Some img =>
      if 0 <? Z.of_nat (length items) then [HotspotRequest img items] else []
  | None => []
  end.

(** Every artifact the cache can answer with satisfies [Q], under the
    key it is found at: its own entries, and the artifact that an
    assignment to ["__proto__"] has made its prototype. *)
Definition cache_all (Q : string -> SceneData -> Prop) (c : SceneCache.t)
  : Prop :=
  (forall k a, SceneCache.entries c !! k = Some a -> Q k a)
  /\ (forall a, SceneCache.prototype c = Some a -> Q "__proto__" a).

(** The world of a starting game once the start request is out: what
    [handleStartGame] has made of [w] when it asks for the first image. *)
Definition initializing (themeInput : string) (w : World) : World :=
  {| gameState :=
       {| isPlaying := true;
          currentSceneId := currentSceneId (gameState w);
          inventory := inventory (gameState w);
          history := history (gameState w);
          imageUrl := imageUrl (gameState w);
          hotspots := hotspots (gameState w);
          isLoading := true;
          loadingMessage := "Initializing World...";
          gameOver := gameOver (gameState w);
          theme := themeInput;
          sceneCache := sceneCache (gameState w) |};
     selectedVerb := selectedVerb w;
     selectedItem := selectedItem w;
     customInput := customInput w;
     isMuted := isMuted w;
     audioContext := true;
     trace := trace w ++ [StartRequest themeInput] |}.

(** The states a game goes through, from its start on: the state a game
    starts in, and the state each command leaves it in (committed, or
    still in flight when the turn threw), whatever the remote model
    answers. *)
Inductive committed : GameState -> Prop :=
| committed_start (remote : Remote) (themeInput : string) (muted : bool) :
    committed
      (gameState (snd (handleStartGame remote INITIAL_STATE themeInput
                         (render INITIAL_STATE muted))))
| committed_turn (remote : Remote) (gs : GameState) (fullCommand : string)
    (muted : bool) :
    committed gs ->
    committed
      (gameState (snd (executeCommand remote gs fullCommand
                         (render gs muted)))).

(** The log of a game of [n] turns: the opening narration, then a command
    and its narration for each turn. *)
Fixpoint turns (n : nat) : list LogType :=
  match n with
  | O => []
  | S n => command :: narrator :: turns n
  end.

(** A narrative call that ends in the [catch] block. *)
Definition failed {A} (r : Reply A) : Prop :=
  match r with
  | Parsed _ => False
  | _ => True
  end.

(** An image call that yields no image. *)
Definition no_image (r : MediaReply) : Prop :=
  match r with
  | InlineData _ _ => False
  | _ => True
  end.

(** ** Concrete inputs *)

(** A remote model that answers every narrative request with [narr],
    every image request with [img] and every detection request with
    [hot]; speech synthesis returns nothing. *)
Definition scripted (narr : Reply AdventureResponse) (img : MediaReply)
    (hot : Reply json) : Remote :=
  {| start_reply := fun _ => narr;
     action_reply := fun _ _ _ _ => narr;
     image_reply := fun _ => img;
     hotspot_reply := fun _ _ => hot;
     speech_reply := fun _ => NoInlineData |}.

Definition box4 (a b c d : Z) : json := JArr [JNum a; JNum b; JNum c; JNum d].

(** [{name:"key", box:[10,10,20,20]}] *)
Definition keyEntry : json :=
  JObj [("name", JStr "key"); ("box", box4 10 10 20 20)].

(** [{name:"lamp"}] *)
Definition lampEntry : json := JObj [("name", JStr "lamp")].

(** [{name:"key", box:["a","b","c","d"]}] *)
Definition stringBoxEntry : json :=
  JObj [("name", JStr "key");
        ("box", JArr [JStr "a"; JStr "b"; JStr "c"; JStr "d"])].

Definition detection (entries : list json) : Reply json :=
  Parsed (JObj [("hotspots", JArr entries)]).

Definition pngImage : string := "data:image/png;base64,AAAA".

(** The scene of the specification's end-to-end scenario, as cached
    after the game started there. *)
Definition lighthouse : SceneData :=
  {| sd_id := "lighthouse_base";
     sd_visualDescription := "a lighthouse at dusk";
     sd_imageUrl := pngImage;
     sd_hotspots := [keyEntry];
     sd_interactables := ["key"] |}.

Definition atLighthouse : GameState :=
  {| isPlaying := true;
     currentSceneId := Some "lighthouse_base";
     inventory := [];
     history := [ {| type := narrator; text := "You arrive." |} ];
     imageUrl := Some pngImage;
     hotspots := [keyEntry];
     isLoading := false;
     loadingMessage := "Analyzing Objects...";
     gameOver := false;
     theme := "haunted lighthouse";
     sceneCache := SceneCache.literal "lighthouse_base" lighthouse |}.

(** Two replies of the narrative model to a command given at the
    lighthouse: one moves to another scene, one stays; neither asks for a
    redraw. *)
Definition climb : AdventureResponse :=
  {| narrative := "You climb the stairs.";
     scene_id := "lighthouse_top";
     visual_description := "the lamp room";
     trigger_visual_update := false;
     interactables := ["lamp"];
     inventory_add := None;
     inventory_remove := None;
     is_game_over := None |}.

Definition lookAround : AdventureResponse :=
  {| narrative := "Nothing new.";
     scene_id := "lighthouse_base";
     visual_description := "the same lighthouse";
     trigger_visual_update := false;
     interactables := ["key"; "door"];
     inventory_add := None;
     inventory_remove := None;
     is_game_over := None |}.

(** At the top of the lighthouse, with no image, the base still cached;
    and the reply that leads back down. *)
Definition atTop : GameState :=
  {| isPlaying := true;
     currentSceneId := Some "lighthouse_top";
     inventory := [];
     history := [ {| type := narrator; text := "You arrive." |} ];
     imageUrl := None;
     hotspots := [];
     isLoading := false;
     loadingMessage := "";
     gameOver := false;
     theme := "haunted lighthouse";
     sceneCache := SceneCache.literal "lighthouse_base" lighthouse |}.

Definition descend : AdventureResponse :=
  {| narrative := "Back down.";
     scene_id := "lighthouse_base";
     visual_description := "a lighthouse at dusk";
     trigger_visual_update := false;
     interactables := ["key"];
     inventory_add := None;
     inventory_remove := None;
     is_game_over := None |}.

(** A turn in flight at the lighthouse. *)
Definition midTurn : GameState :=
  {| isPlaying := true;
     currentSceneId := Some "lighthouse_base";
     inventory := [];
     history := [ {| type := narrator; text := "You arrive." |};
                  {| type := command; text := "> Look at key" |} ];
     imageUrl := Some pngImage;
     hotspots := [keyEntry];
     isLoading := true;
     loadingMessage := "Thinking...";
     gameOver := false;
     theme := "haunted lighthouse";
     sceneCache := SceneCache.literal "lighthouse_base" lighthouse |}.


(** A reply that hands over the key and stays at the lighthouse. *)
Definition takeKey : AdventureResponse :=
  {| narrative := "You take the key.";
     scene_id := "lighthouse_base";
     visual_description := "a lighthouse at dusk";
     trigger_visual_update := false;
     interactables := [];
     inventory_add := Some "key";
     inventory_remove := None;
     is_game_over := None |}.

(** A reply that moves to a scene the narrative model has named
    "constructor"; it also hands over the key and ends the game. *)
Definition wander : AdventureResponse :=
  {| narrative := "You wander off.";
     scene_id := "constructor";
     visual_description := "a builder's yard";
     trigger_visual_update := false;
     interactables := ["door"];
     inventory_add := Some "key";
     inventory_remove := None;
     is_game_over := Some true |}.

(** The opening of a game that starts at the lighthouse with a lantern in
    hand, and the state committed when the image and one well-formed
    hotspot come back. *)
Definition lanternEntry : json :=
  JObj [("name", JStr "lantern"); ("box", box4 40 40 60 60)].

Definition opening : AdventureResponse :=
  {| narrative := "You arrive.";
     scene_id := "lighthouse_base";
     visual_description := "a lighthouse at dusk";
     trigger_visual_update := true;
     interactables := ["lantern"];
     inventory_add := Some "lantern";
     inventory_remove := None;
     is_game_over := None |}.

Definition studio : Remote :=
  scripted (Parsed opening) (InlineData "image/png" "AAAA")
    (detection [lanternEntry; lampEntry]).

Definition started : GameState :=
  gameState (snd (handleStartGame studio INITIAL_STATE "haunted lighthouse"
                    (render INITIAL_STATE false))).

(** * Properties *)

(** ** Narration audio decoding *)

Section Audio.

Lemma byte_value_range (b : Byte.byte) : 0 <= byte_value b <= 255.
Proof.
  unfold byte_value. pose proof (Byte.to_N_bounded b). lia.
Qed.

(** Induction over a byte stream two bytes at a time. *)
Lemma pairs_ind (P : list Byte.byte -> Prop) :
  P [] ->
  (forall b, P [b]) ->
  (forall lo hi rest, P rest -> P (lo :: hi :: rest)) ->
  forall data, P data.
Proof.
  intros Hnil Hone Hstep data.
  assert (H : P data /\ forall b, P (b :: data)).
  { induction data as [|b data [IH1 IH2]]; split; auto. }
  exact (proj1 H).
Qed.

Lemma Int16Array_range (data : list Byte.byte) :
  Forall (fun n => -32768 <= n <= 32767) (Int16Array data).
Proof.
  induction data as [| b | lo hi rest IH] using pairs_ind; simpl.
  - constructor.
  - constructor.
  - constructor; [| exact IH].
    pose proof (byte_value_range lo). pose proof (byte_value_range hi).
    destruct (_ <? 32768) eqn:E; [apply Z.ltb_lt in E | apply Z.ltb_ge in E]; lia.
Qed.

Lemma Int16Array_length (data : list Byte.byte) :
  length (Int16Array data) = Nat.div2 (length data).
Proof.
  induction data as [| b | lo hi rest IH] using pairs_ind; simpl; auto.
Qed.

Lemma sample_normalised (n : Z) :
  -32768 <= n <= 32767 ->
  (inject_Z (-1) <= inject_Z n / inject_Z 32768)%Q
  /\ (inject_Z n / inject_Z 32768 <= inject_Z 1)%Q.
Proof.
  intros Hn. unfold Qle, Qdiv, Qmult, Qinv, inject_Z; simpl. lia.
Qed.

Lemma odd_length_test (n : nat) :
  negb (Z.of_nat n mod 2 =? 0) = Nat.odd n.
Proof.
  destruct (Nat.Even_or_Odd n) as [[k ->] | [k ->]].
  - replace (Z.of_nat (2 * k)) with (0 + Z.of_nat k * 2) by lia.
    rewrite Z_mod_plus_full, Nat.odd_mul. reflexivity.
  - replace (Z.of_nat (2 * k + 1)) with (1 + Z.of_nat k * 2) by lia.
    rewrite Z_mod_plus_full, Nat.add_comm, Nat.odd_add_mul_2. reflexivity.
Qed.

End Audio.

(** C9.  [decodeAudioData] reads the byte stream, extended by one zero byte
    when its length is odd, as 16-bit samples (low byte first), turns
    each sample [n] into [n / 32768], and every value it produces lies in
    [-1.0, 1.0]. *)
Theorem decodeAudioData_normalised (data : list Byte.byte) :
  let padded :=
    if Nat.odd (length data) then data ++ [Byte.x00] else data in
  channelData (decodeAudioData data)
    = map (fun n => (inject_Z n / inject_Z 32768)%Q) (Int16Array padded)
  /\ length (channelData (decodeAudioData data))
       = Nat.div2 (length data + 1)
  /\ Forall (fun n => -32768 <= n <= 32767) (Int16Array padded)
  /\ Forall (fun q => (inject_Z (-1) <= q)%Q /\ (q <= inject_Z 1)%Q)
       (channelData (decodeAudioData data)).
Proof.
  intros padded.
  assert (Hdef : channelData (decodeAudioData data)
            = map (fun n => (inject_Z n / inject_Z 32768)%Q) (Int16Array padded)).
  { unfold decodeAudioData, padded. simpl. rewrite odd_length_test. reflexivity. }
  split; [exact Hdef |].
  split.
  { rewrite Hdef, length_map, Int16Array_length. unfold padded.
    destruct (Nat.odd (length data)) eqn:Hodd.
    - rewrite length_app. reflexivity.
    - rewrite Nat.add_1_r.
      rewrite <- Nat.negb_even in Hodd. apply negb_false_iff in Hodd.
      apply Nat.even_spec in Hodd. destruct Hodd as [k ->].
      rewrite Nat.div2_succ_double, Nat.div2_double. reflexivity. }
  split; [apply Int16Array_range |].
  rewrite Hdef. apply List.Forall_map.
  eapply List.Forall_impl; [| apply Int16Array_range].
  intros n Hn. apply sample_normalised, Hn.
Qed.

(** ** Hotspot detection *)

Section Hotspots.

Variable remote : Remote.

Lemma keepHotspot_iff (h : json) :
  keepHotspot h = true <->
  exists props nm a b c d,
    h = JObj props
    /\ own "name" props = Some nm /\ truthy nm = true
    /\ own "box" props = Some (JArr [a; b; c; d]).
Proof.
  split.
  - unfold keepHotspot. intros H.
    repeat (apply andb_prop in H; destruct H as [H ?]).
    destruct h as [| | | | | props]; simpl in *; try discriminate.
    destruct (own "name" props) as [nm |] eqn:Hname; [| discriminate].
    destruct (own "box" props) as [[| | | | box |] |] eqn:Hbox;
      try discriminate.
    match goal with
    | Hlen : (_ =? 4) = true |- _ => apply Z.eqb_eq in Hlen; simpl in Hlen
    end.
    destruct box as [| a [| b [| c [| d [| e rest]]]]];
      try (simpl in *; lia).
    exists props, nm, a, b, c, d. auto.
  - intros (props & nm & a & b & c & d & -> & Hname & Hnm & Hbox).
    unfold keepHotspot. simpl. rewrite Hname, Hbox. simpl.
    rewrite Hnm. reflexivity.
Qed.

Lemma hotspots_try_kept (r : Reply json) :
  Forall (fun h => keepHotspot h = true) (catch (hotspots_try r) []).
Proof.
  destruct r as [| | | result]; simpl; try constructor.
  assert (Hraw : forall raw,
             Forall (fun h => keepHotspot h = true)
               (catch (match raw with
                       | JArr entries => inr (List.filter keepHotspot entries)
                       | _ => inl TypeError
                       end) [])).
  { intros [| | | | entries |]; simpl; try constructor.
    apply List.Forall_forall. intros h Hin.
    apply List.filter_In in Hin. tauto. }
  destruct result; simpl; try constructor; apply Hraw.
Qed.

Lemma detectSceneHotspots_run (imageBase64 : string) (items : list string)
    (w : World) :
  items <> [] ->
  fst (detectSceneHotspots remote imageBase64 items w)
  = catch (hotspots_try (hotspot_reply remote imageBase64 items)) [].
Proof.
  intros Hitems. unfold detectSceneHotspots.
  destruct items as [| i items]; [congruence |]. reflexivity.
Qed.

End Hotspots.

(** C4 (as the code has it).  The detection reply is filtered so that
    exactly the entries that are objects with a non-empty (truthy) name
    and a box that is an array of four elements are kept; the elements of
    the box are not inspected.  Every other entry is dropped, every
    failure of the call ends in the empty list instead of an error, and
    an entry the specification calls well formed is kept when its name is
    a non-empty string. *)
Theorem detectSceneHotspots_filter (remote : Remote) (imageBase64 : string)
    (items : list string) (w : World) :
  let kept := fst (detectSceneHotspots remote imageBase64 items w) in
  (forall result entries,
      items <> [] ->
      hotspot_reply remote imageBase64 items = Parsed result ->
      member result "hotspots" = Some (JArr entries) ->
      kept = List.filter keepHotspot entries)
  /\ Forall (fun h => keepHotspot h = true) kept
  /\ (forall h,
        keepHotspot h = true <->
        exists props nm a b c d,
          h = JObj props
          /\ own "name" props = Some nm /\ truthy nm = true
          /\ own "box" props = Some (JArr [a; b; c; d]))
  /\ (forall h s,
        member h "name" = Some (JStr s) -> s <> "" ->
        wellformed_entry h = true -> keepHotspot h = true)
  /\ (failed (hotspot_reply remote imageBase64 items) -> kept = []).
Proof.
  intros kept. repeat split.
  - intros result entries Hitems Hreply Hmember. unfold kept.
    rewrite detectSceneHotspots_run by exact Hitems.
    rewrite Hreply. unfold hotspots_try.
    destruct result; simpl in Hmember; try discriminate.
    simpl. rewrite Hmember. reflexivity.
  - unfold kept, detectSceneHotspots.
    destruct (Z.of_nat (length items) =? 0); simpl.
    + constructor.
    + apply hotspots_try_kept.
  - apply keepHotspot_iff.
  - apply keepHotspot_iff.
  - intros h s Hname Hs Hwf. unfold wellformed_entry in Hwf.
    rewrite Hname in Hwf. unfold numeric_box in Hwf.
    destruct h as [| | | | | props]; simpl in *; try discriminate.
    destruct (own "box" props) as [[| | | | box |] |] eqn:Hbox;
      try discriminate.
    destruct box as [| [] [| [] [| [] [| [] [| e rest]]]]]; try discriminate.
    apply keepHotspot_iff. do 6 eexists. repeat split; eauto.
    simpl. apply negb_true_iff, String.eqb_neq, Hs.
  - intros Hfailed. unfold kept, detectSceneHotspots.
    destruct (Z.of_nat (length items) =? 0); [reflexivity |]. simpl.
    destruct (hotspot_reply remote imageBase64 items);
      [reflexivity .. | contradiction].
Qed.

(** The filtering example of the specification: of a well-formed entry and
    an entry without a box, only the first is kept. *)
Example detectSceneHotspots_key_lamp :
  fst (detectSceneHotspots
         (scripted Rejected MediaRejected (detection [keyEntry; lampEntry]))
         pngImage ["key"; "lamp"] (render INITIAL_STATE false))
  = [keyEntry].
Proof. reflexivity. Qed.

Lemma detectSceneHotspots_filter_witness :
  fst (detectSceneHotspots
         (scripted Rejected MediaRejected (detection [keyEntry; lampEntry]))
         pngImage ["key"; "lamp"] (render INITIAL_STATE false))
  = List.filter keepHotspot [keyEntry; lampEntry].
Proof.
  apply (proj1 (detectSceneHotspots_filter
                  (scripted Rejected MediaRejected
                     (detection [keyEntry; lampEntry]))
                  pngImage ["key"; "lamp"] (render INITIAL_STATE false))
           (JObj [("hotspots", JArr [keyEntry; lampEntry])])
           [keyEntry; lampEntry]).
  - discriminate.
  - reflexivity.
  - reflexivity.
Defined.

(** C4 (as stated) fails: an entry whose box holds four strings is not a
    4-element numeric array, yet the filter keeps it. *)
Lemma detectSceneHotspots_keeps_string_box :
  wellformed_entry stringBoxEntry = false
  /\ fst (detectSceneHotspots
            (scripted Rejected MediaRejected (detection [stringBoxEntry]))
            pngImage ["key"] (render INITIAL_STATE false))
     = [stringBoxEntry].
Proof. split; reflexivity. Qed.

(** ** Inventory *)

Section Inventory.

Lemma includes_In (l : list string) (x : string) :
  includes l x = true <-> In x l.
Proof.
  unfold includes. rewrite List.existsb_exists. split.
  - intros (y & Hin & Heq). apply String.eqb_eq in Heq. subst. exact Hin.
  - intros Hin. exists x. split; [exact Hin | apply String.eqb_refl].
Qed.

Lemma includes_not_In (l : list string) (x : string) :
  includes l x = false <-> ~ In x l.
Proof.
  rewrite <- includes_In. destruct (includes l x); split; congruence.
Qed.



Lemma newInventory_NoDup (inv : list string) (add rem : option string) :
  List.NoDup inv -> List.NoDup (newInventory inv add rem).
Proof.
  intros Hnd. unfold newInventory.
  assert (Hadded : List.NoDup
            match add with
            | Some item =>
                if negb (String.eqb item "") && negb (includes inv item)
                then inv ++ [item] else inv
            | None => inv
            end).
  { destruct add as [item |]; [| exact Hnd].
    destruct (negb (String.eqb item "")); simpl; [| exact Hnd].
    destruct (includes inv item) eqn:Hinc; simpl; [exact Hnd |].
    apply includes_not_In in Hinc.
    apply List.NoDup_app; [exact Hnd | repeat constructor; intros [] |].
    intros x Hx [-> | []]. contradiction. }
  destruct rem as [item |]; [| exact Hadded].
  destruct (negb (String.eqb item "")); [| exact Hadded].
  apply List.NoDup_filter, Hadded.
Qed.

End Inventory.

(** ** The scene cache *)

Section Cache.

Lemma get_set_eq (c : SceneCache.t) (k : string) (v : SceneData) :
  SceneCache.get (SceneCache.set c k v) k = SceneCache.Artifact v.
Proof.
  unfold SceneCache.get, SceneCache.set.
  destruct (SceneCache.entries c !! k) as [a |] eqn:Hown; simpl.
  - rewrite lookup_insert_eq. reflexivity.
  - destruct (String.eqb_spec k "__proto__") as [-> | Hk]; simpl.
    + rewrite Hown. reflexivity.
    + rewrite lookup_insert_eq. reflexivity.
Qed.

(** An assignment creates or overwrites the own property, unless it is
    the assignment to ["__proto__"] on an object without such a
    property. *)
Lemma set_entries (c : SceneCache.t) (k : string) (v : SceneData) :
  k <> "__proto__" \/ is_Some (SceneCache.entries c !! k) ->
  SceneCache.set c k v
  = SceneCache.mk (<[ k := v ]> (SceneCache.entries c)) (SceneCache.prototype c).
Proof.
  unfold SceneCache.set. intros [Hk | [a Hown]].
  - destruct (SceneCache.entries c !! k); [reflexivity |].
    apply String.eqb_neq in Hk. rewrite Hk. reflexivity.
  - rewrite Hown. reflexivity.
Qed.

Lemma set_entries_ne (c : SceneCache.t) (k k' : string) (v : SceneData) :
  k' <> k ->
  SceneCache.entries (SceneCache.set c k v) !! k' = SceneCache.entries c !! k'.
Proof.
  intros Hne. unfold SceneCache.set.
  destruct (SceneCache.entries c !! k); simpl.
  - apply lookup_insert_ne. congruence.
  - destruct (String.eqb k "__proto__"); simpl; [reflexivity |].
    apply lookup_insert_ne. congruence.
Qed.

(** An assignment keeps every own property: it adds one, overwrites one,
    or leaves them all. *)
Lemma set_entries_cases (c : SceneCache.t) (k : string) (v : SceneData) :
  SceneCache.entries (SceneCache.set c k v) = <[ k := v ]> (SceneCache.entries c)
  \/ (k = "__proto__"
      /\ SceneCache.entries c !! k = None
      /\ SceneCache.set c k v = SceneCache.mk (SceneCache.entries c) (Some v)).
Proof.
  unfold SceneCache.set.
  destruct (SceneCache.entries c !! k) eqn:Hown; simpl; [now left |].
  destruct (String.eqb_spec k "__proto__") as [-> | Hk]; simpl; auto.
Qed.

Lemma get_entry (c : SceneCache.t) (k : string) (a : SceneData) :
  SceneCache.entries c !! k = Some a ->
  SceneCache.get c k = SceneCache.Artifact a.
Proof. intros Hown. unfold SceneCache.get. rewrite Hown. reflexivity. Qed.

Lemma field_no_artifact (a a' : SceneData) (k : string) :
  SceneCache.field a k <> Some (SceneCache.Artifact a').
Proof.
  unfold SceneCache.field, SceneCache.text_value.
  repeat match goal with
         | |- context [if ?b then _ else _] => destruct b
         end; discriminate.
Qed.

(** A lookup that yields an artifact found it as an own property, or as
    the prototype read through ["__proto__"]. *)
Lemma get_artifact (c : SceneCache.t) (k : string) (a : SceneData) :
  SceneCache.get c k = SceneCache.Artifact a ->
  SceneCache.entries c !! k = Some a
  \/ (k = "__proto__"
      /\ SceneCache.entries c !! k = None
      /\ SceneCache.prototype c = Some a).
Proof.
  unfold SceneCache.get.
  destruct (SceneCache.entries c !! k) as [own |]; [intros [= ->]; now left |].
  destruct (String.eqb_spec k "__proto__") as [-> | Hk].
  - destruct (SceneCache.prototype c); [intros [= ->]; now right | discriminate].
  - assert (Hinherited : SceneCache.inherited k <> SceneCache.Artifact a).
    { unfold SceneCache.inherited. destruct (existsb _ _); discriminate. }
    destruct (SceneCache.prototype c) as [p |]; [| intros H; now apply Hinherited in H].
    destruct (SceneCache.field p k) as [v |] eqn:Hfield;
      [| intros H; now apply Hinherited in H].
    intros ->. now apply field_no_artifact in Hfield.
Qed.

(** On an object whose prototype is [Object.prototype], a lookup hits
    something other than an artifact exactly under the names of the
    inherited members that are not shadowed. *)
Lemma get_plain (entries : gmap string SceneData) (k : string) :
  SceneCache.get (SceneCache.mk entries None) k
  = match entries !! k with
    | Some a => SceneCache.Artifact a
    | None =>
        if existsb (String.eqb k) SceneCache.Object_prototype_members
        then SceneCache.Other
        else SceneCache.Falsy
    end.
Proof.
  unfold SceneCache.get, SceneCache.inherited. simpl.
  destruct (entries !! k); [reflexivity |].
  destruct (String.eqb_spec k "__proto__") as [-> | Hk]; reflexivity.
Qed.


End Cache.

(** ** The visual resolution policy and the turn *)

Ltac trace_eq :=
  rewrite <- ?List.app_assoc; simpl; rewrite ?List.app_nil_r; reflexivity.

Section Turn.

Variable remote : Remote.

Lemma image_try_truthy (r : MediaReply) (img : string) :
  catch (image_try r) None = Some img -> String.eqb img "" = false.
Proof.
  destruct r as [| | mimeType data]; simpl; try discriminate.
  intros [= <-]. reflexivity.
Qed.

Lemma image_try_failed (r : MediaReply) :
  no_image r -> catch (image_try r) None = None.
Proof. destruct r; simpl; [reflexivity | reflexivity | contradiction]. Qed.

Lemma same_but_message_refl (a : GameState) : same_but_message a a.
Proof. intros msg. reflexivity. Qed.

Lemma same_but_message_set (msg : string) (a b : GameState) :
  same_but_message a b -> same_but_message (set_loadingMessage msg a) b.
Proof. intros H msg'. specialize (H msg'). exact H. Qed.

Lemma untouched_refl (w : World) : untouched w w.
Proof. unfold untouched. auto 10 using same_but_message_refl. Qed.

(** The cache test lets the generation run exactly when the redraw is
    forced or the lookup is falsy. *)
Lemma cacheTest_falsy (gs : GameState) (sceneId : string)
    (triggerUpdate : bool) :
  cacheTest gs sceneId triggerUpdate = SceneCache.Falsy <->
  triggerUpdate = true
  \/ SceneCache.get (sceneCache gs) sceneId = SceneCache.Falsy.
Proof.
  unfold cacheTest. destruct triggerUpdate; simpl.
  - split; auto.
  - split; [auto | intros [H | H]; [discriminate | exact H]].
Qed.

(** The three ways through [handleVisualUpdate]: a cached artifact
    answers with its image and hotspots; a hit on anything else answers
    with undefined image and hotspots; in both cases nothing is requested
    or written.  Otherwise one image is requested and, when it arrives and
    there are interactables, one detection on it. *)
Lemma handleVisualUpdate_cases (gs : GameState) (sceneId visualDesc : string)
    (triggerUpdate : bool) (items : list string) (w : World) :
  let res := fst (handleVisualUpdate remote gs sceneId visualDesc
                    triggerUpdate items w) in
  let w' := snd (handleVisualUpdate remote gs sceneId visualDesc
                   triggerUpdate items w) in
  untouched w' w
  /\ match cacheTest gs sceneId triggerUpdate with
     | SceneCache.Artifact cached =>
         res = Visuals (Some (sd_imageUrl cached)) (sd_hotspots cached)
         /\ w' = snd (emit (VisualUpdateEntered sceneId triggerUpdate) w)
     | SceneCache.Other =>
         res = Undefined
         /\ w' = snd (emit (VisualUpdateEntered sceneId triggerUpdate) w)
     | SceneCache.Falsy =>
         res = Visuals (generatedImage remote visualDesc)
                 (detected remote visualDesc items)
         /\ trace w'
            = trace w
                ++ [VisualUpdateEntered sceneId triggerUpdate;
                    ImageRequest visualDesc]
                ++ detectionRequests remote visualDesc items
     end.
Proof.
  unfold handleVisualUpdate, cacheTest, detected, detectionRequests,
    generatedImage, untouched, bind.
  simpl.
  destruct (if negb triggerUpdate
            then SceneCache.get (sceneCache gs) sceneId
            else SceneCache.Falsy) as [cached | |]; simpl.
  { auto 10 using same_but_message_refl. }
  { auto 10 using same_but_message_refl. }
  destruct (catch (image_try (image_reply remote visualDesc)) None)
    as [img |] eqn:Himg; simpl.
  2: { split; [| split; [reflexivity | trace_eq]].
       auto 10 using same_but_message_set, same_but_message_refl. }
  rewrite (image_try_truthy _ _ Himg).
  destruct (0 <? Z.of_nat (length items)) eqn:Hitems; simpl.
  2: { split; [| split; [reflexivity | trace_eq]].
       auto 10 using same_but_message_set, same_but_message_refl. }
  unfold detectSceneHotspots.
  destruct (Z.of_nat (length items) =? 0) eqn:Hzero; simpl.
  { apply Z.eqb_eq in Hzero. apply Z.ltb_lt in Hitems. lia. }
  split; [| split; [reflexivity | trace_eq]].
  auto 10 using same_but_message_set, same_but_message_refl.
Qed.

Lemma detected_kept (visualDesc : string) (items : list string) :
  Forall (fun h => keepHotspot h = true) (detected remote visualDesc items).
Proof.
  unfold detected.
  destruct (generatedImage remote visualDesc); [| constructor].
  destruct (0 <? Z.of_nat (length items)); [| constructor].
  apply hotspots_try_kept.
Qed.

Lemma generatedImage_truthy (visualDesc : string) :
  generatedImage remote visualDesc <> Some "".
Proof.
  intros H. apply image_try_truthy in H. discriminate.
Qed.

Lemma needsUpdate_iff (gs : GameState) (response : AdventureResponse) :
  needsUpdate gs response = true <->
  Some (scene_id response) <> currentSceneId gs
  \/ trigger_visual_update response = true.
Proof.
  unfold needsUpdate. rewrite orb_true_iff, negb_true_iff.
  rewrite bool_decide_eq_false. reflexivity.
Qed.

Lemma throws_iff (gs : GameState) (response : AdventureResponse) :
  throws gs response = true <->
  needsUpdate gs response = true
  /\ cacheTest gs (scene_id response) (trigger_visual_update response)
     = SceneCache.Other.
Proof.
  unfold throws. rewrite andb_true_iff.
  destruct (cacheTest gs (scene_id response) (trigger_visual_update response));
    split; intros (H1 & H2); (split; [exact H1 |]);
    first [reflexivity | discriminate].
Qed.

(** A turn that throws was not asked to redraw. *)
Lemma throws_untriggered (gs : GameState) (response : AdventureResponse) :
  throws gs response = true -> trigger_visual_update response = false.
Proof.
  intros H. apply throws_iff in H. destruct H as (_ & H).
  destruct (trigger_visual_update response); [discriminate | reflexivity].
Qed.

(** The "Handle Visuals" block, by what the cache test comes to. *)
Lemma resolveVisuals_cases (gs : GameState) (response : AdventureResponse)
    (w : World) :
  let r := resolveVisuals remote gs response w in
  untouched (snd r) w
  /\ if needsUpdate gs response then
       match cacheTest gs (scene_id response) (trigger_visual_update response)
       with
       | SceneCache.Artifact cached =>
           r = (inr (or_str (Some (sd_imageUrl cached)) (imageUrl gs),
                     sd_hotspots cached),
                snd (emit (VisualUpdateEntered (scene_id response)
                             (trigger_visual_update response)) w))
       | SceneCache.Other =>
           r = (inl TypeError,
                snd (emit (VisualUpdateEntered (scene_id response)
                             (trigger_visual_update response)) w))
       | SceneCache.Falsy =>
           fst r
           = inr (or_str (generatedImage remote (visual_description response))
                    (imageUrl gs),
                  detected remote (visual_description response)
                    (interactables response))
           /\ trace (snd r)
              = trace w
                  ++ [VisualUpdateEntered (scene_id response)
                        (trigger_visual_update response);
                      ImageRequest (visual_description response)]
                  ++ detectionRequests remote (visual_description response)
                       (interactables response)
       end
     else r = (inr (imageUrl gs, hotspots gs), w).
Proof.
  unfold resolveVisuals.
  destruct (needsUpdate gs response); simpl;
    [| split; [apply untouched_refl | reflexivity]].
  pose proof (handleVisualUpdate_cases gs (scene_id response)
                (visual_description response) (trigger_visual_update response)
                (interactables response) w) as (Hsame & Hpol).
  simpl in Hsame, Hpol. unfold bind.
  destruct (handleVisualUpdate remote gs (scene_id response)
              (visual_description response) (trigger_visual_update response)
              (interactables response) w) as [res w1].
  simpl in Hsame, Hpol.
  destruct (cacheTest gs (scene_id response) (trigger_visual_update response))
    as [cached | |].
  - destruct Hpol as (-> & ->). simpl. split; [exact Hsame |].
    destruct (sd_hotspots cached); reflexivity.
  - destruct Hpol as (-> & ->). simpl. split; [exact Hsame | reflexivity].
  - destruct Hpol as (-> & Htrace). simpl. split; [exact Hsame |].
    split; [| exact Htrace].
    destruct (detected _ _ _); reflexivity.
Qed.

Lemma resolveVisuals_frame (gs : GameState) (response : AdventureResponse)
    (w : World) :
  untouched (snd (resolveVisuals remote gs response w)) w.
Proof. apply resolveVisuals_cases. Qed.

(** The visuals are resolved unless the turn throws, and then the error
    is the [TypeError] and the turn was in the policy. *)
Lemma resolveVisuals_throws (gs : GameState) (response : AdventureResponse)
    (w : World) :
  if throws gs response
  then resolveVisuals remote gs response w
       = (inl TypeError,
          snd (emit (VisualUpdateEntered (scene_id response) false) w))
  else exists image found,
         fst (resolveVisuals remote gs response w) = inr (image, found).
Proof.
  pose proof (resolveVisuals_cases gs response w) as (_ & Hcases).
  simpl in Hcases.
  destruct (throws gs response) eqn:Hthrows.
  - pose proof (throws_untriggered _ _ Hthrows) as Htrigger.
    apply throws_iff in Hthrows. destruct Hthrows as (Hneeds & Htest).
    rewrite Hneeds, Htest, Htrigger in Hcases. exact Hcases.
  - unfold throws in Hthrows.
    destruct (needsUpdate gs response); [| rewrite Hcases; simpl; eauto].
    destruct (cacheTest gs (scene_id response) (trigger_visual_update response)).
    + rewrite Hcases. simpl. eauto.
    + discriminate.
    + destruct Hcases as (-> & _). eauto.
Qed.

(** The requests a turn sends while it resolves its visuals. *)
Lemma resolveVisuals_trace (gs : GameState) (response : AdventureResponse)
    (w : World) :
  let w' := snd (resolveVisuals remote gs response w) in
  exists evs,
    trace w' = trace w ++ evs
    /\ (if needsUpdate gs response
        then exists rest,
               evs = VisualUpdateEntered (scene_id response)
                       (trigger_visual_update response) :: rest
               /\ existsb is_policy_entry rest = false
        else evs = []).
Proof.
  pose proof (resolveVisuals_cases gs response w) as (_ & Hcases).
  simpl in *.
  destruct (needsUpdate gs response).
  - destruct (cacheTest gs (scene_id response) (trigger_visual_update response)).
    + rewrite Hcases. simpl. eexists. split; [reflexivity |]. exists []. auto.
    + rewrite Hcases. simpl. eexists. split; [reflexivity |]. exists []. auto.
    + destruct Hcases as (_ & ->). eexists. split; [reflexivity |].
      eexists. split; [reflexivity |].
      unfold detectionRequests. simpl.
      destruct (generatedImage _ _); [| reflexivity].
      destruct (0 <? _); reflexivity.
  - rewrite Hcases. exists []. simpl. rewrite List.app_nil_r. auto.
Qed.

(** The requests sent while a turn resolves its visuals, counted. *)
Lemma resolveVisuals_shape (gs : GameState) (response : AdventureResponse)
    (w : World) :
  let w' := snd (resolveVisuals remote gs response w) in
  exists mid,
    trace w' = trace w ++ mid
    /\ count is_narrative_request mid = 0%nat
    /\ count is_speech_request mid = 0%nat
    /\ (count is_hotspot_request mid <= count is_image_request mid)%nat
    /\ (count is_image_request mid <= 1)%nat
    /\ (needsUpdate gs response = false -> mid = []).
Proof.
  pose proof (resolveVisuals_cases gs response w) as (_ & Hcases).
  simpl in *.
  destruct (needsUpdate gs response).
  - destruct (cacheTest gs (scene_id response) (trigger_visual_update response)).
    + rewrite Hcases. simpl. eexists. split; [reflexivity |].
      cbv [count]. simpl. repeat split; try lia; discriminate.
    + rewrite Hcases. simpl. eexists. split; [reflexivity |].
      cbv [count]. simpl. repeat split; try lia; discriminate.
    + destruct Hcases as (_ & ->). eexists. split; [reflexivity |].
      unfold detectionRequests.
      destruct (generatedImage _ _);
        [destruct (0 <? _) |]; cbv [count]; simpl;
        repeat split; try lia; discriminate.
  - rewrite Hcases. exists []. simpl. rewrite List.app_nil_r.
    cbv [count]. simpl. repeat split; lia.
Qed.

(** What a turn displays: the image it resolved, or else the one that was
    displayed. *)
Lemma resolveVisuals_image (gs : GameState) (response : AdventureResponse)
    (w : World) (image : option string) (found : list Hotspot) :
  fst (resolveVisuals remote gs response w) = inr (image, found) ->
  image = imageUrl gs \/ truthy_str image = true.
Proof.
  pose proof (resolveVisuals_cases gs response w) as (_ & Hcases).
  simpl in Hcases. intros Hres.
  assert (Hor : forall a, or_str a (imageUrl gs) = imageUrl gs
                          \/ truthy_str (or_str a (imageUrl gs)) = true).
  { intros a. unfold or_str.
    destruct (truthy_str a) eqn:Htruthy; [right; exact Htruthy | now left]. }
  destruct (needsUpdate gs response).
  - destruct (cacheTest gs (scene_id response) (trigger_visual_update response)).
    + rewrite Hcases in Hres. simpl in Hres. injection Hres as <- <-. apply Hor.
    + rewrite Hcases in Hres. discriminate.
    + destruct Hcases as (Hfst & _). rewrite Hfst in Hres.
      injection Hres as <- <-. apply Hor.
  - rewrite Hcases in Hres. simpl in Hres. injection Hres as <- <-. now left.
Qed.

(** The hotspots a turn displays passed the filter, when those displayed
    and those of the artifacts the cache can answer with did. *)
Lemma resolveVisuals_kept (gs : GameState) (response : AdventureResponse)
    (w : World) (image : option string) (found : list Hotspot) :
  Forall (fun h => keepHotspot h = true) (hotspots gs) ->
  (forall k cached,
     SceneCache.get (sceneCache gs) k = SceneCache.Artifact cached ->
     Forall (fun h => keepHotspot h = true) (sd_hotspots cached)) ->
  fst (resolveVisuals remote gs response w) = inr (image, found) ->
  Forall (fun h => keepHotspot h = true) found.
Proof.
  intros Hshown Hcached Hres.
  pose proof (resolveVisuals_cases gs response w) as (_ & Hcases).
  simpl in Hcases.
  destruct (needsUpdate gs response).
  - destruct (cacheTest gs (scene_id response) (trigger_visual_update response))
      as [cached | |] eqn:Htest.
    + rewrite Hcases in Hres. simpl in Hres. injection Hres as <- <-.
      unfold cacheTest in Htest.
      destruct (negb (trigger_visual_update response)); [| discriminate].
      eapply Hcached, Htest.
    + rewrite Hcases in Hres. discriminate.
    + destruct Hcases as (Hfst & _). rewrite Hfst in Hres.
      injection Hres as <- <-. apply detected_kept.
  - rewrite Hcases in Hres. simpl in Hres. injection Hres as <- <-.
    exact Hshown.
Qed.

(** The world a turn that passes the guard ends in: the world in which
    the visuals were resolved when that threw, and else the committed
    one. *)
Lemma executeCommand_world (gs : GameState) (fullCommand : string) (w : World) :
  isLoading gs = false -> gameOver gs = false ->
  let response := turnResponse remote gs fullCommand in
  let r := resolveVisuals remote gs response
             (awaitingVisuals gs fullCommand w) in
  snd (executeCommand remote gs fullCommand w)
  = match fst r with
    | inl _ => snd r
    | inr (newImage, newHotspots) =>
        {| gameState :=
             {| isPlaying := isPlaying (gameState w);
                currentSceneId := Some (scene_id response);
                inventory :=
                  newInventory (inventory gs) (inventory_add response)
                    (inventory_remove response);
                history :=
                  (history gs
                     ++ [ {| type := command; text := "> " +:+ fullCommand |} ])
                    ++ [ {| type := narrator; text := narrative response |} ];
                imageUrl := newImage;
                hotspots := newHotspots;
                isLoading := false;
                loadingMessage := loadingMessage (gameState (snd r));
                gameOver :=
                  match is_game_over response with
                  | Some b => b
                  | None => false
                  end;
                theme := theme (gameState w);
                sceneCache :=
                  nextCache (sceneCache (gameState w)) response newImage
                    newHotspots |};
           selectedVerb := None;
           selectedItem := None;
           customInput := "";
           isMuted := isMuted w;
           audioContext := true;
           trace := trace (snd r)
                      ++ (if isMuted w then []
                          else [SpeechRequest (narrative response)]) |}
    end.
Proof.
  intros Hloading Hover response r.
  pose proof (resolveVisuals_frame gs response
                (awaitingVisuals gs fullCommand w))
    as (Hsame & _ & _ & _ & Hmuted & Haudio).
  fold r in Hsame, Hmuted, Haudio. specialize (Hsame "").
  pose proof (f_equal isPlaying Hsame) as Hplaying.
  pose proof (f_equal theme Hsame) as Htheme.
  pose proof (f_equal sceneCache Hsame) as Hcache.
  simpl in Hplaying, Htheme, Hcache, Hmuted, Haudio.
  unfold executeCommand. rewrite Hloading, Hover.
  unfold processGameAction, bind, initAudio, setGameState, emit, ret,
    clearSelection.
  cbn beta iota zeta delta [orb fst snd gameState selectedVerb selectedItem
    customInput isMuted audioContext trace].
  change (catch _ (action_fallback (currentSceneId gs))) with response.
  change (mkWorld _ (selectedVerb w) (selectedItem w) (customInput w)
            (isMuted w) true _)
    with (awaitingVisuals gs fullCommand w).
  fold r.
  destruct r as [[thrown | [newImage newHotspots]] w2]; [reflexivity |].
  simpl in *.
  unfold playAudio, getMuted, bind, initAudio, generateNarratorAudio, emit, ret.
  simpl. rewrite Hmuted, Hplaying, Htheme, Hcache.
  assert (Hnext :
    match newImage with
    | Some img =>
        if String.eqb img ""
        then SceneCache.spread (sceneCache (gameState w))
        else SceneCache.set (SceneCache.spread (sceneCache (gameState w)))
               (scene_id response)
               {| sd_id := scene_id response;
                  sd_visualDescription := visual_description response;
                  sd_imageUrl := img;
                  sd_hotspots := newHotspots;
                  sd_interactables := interactables response |}
    | None => SceneCache.spread (sceneCache (gameState w))
    end
    = nextCache (sceneCache (gameState w)) response newImage newHotspots).
  { unfold nextCache, artifact.
    destruct newImage as [img |]; simpl; [| reflexivity].
    destruct (String.eqb img ""); reflexivity. }
  rewrite Hnext.
  destruct (isMuted w); simpl; rewrite ?List.app_nil_r, ?Haudio; reflexivity.
Qed.

(** A turn that throws ends in flight: the command is logged, the
    narrative request is out, the policy was entered, and nothing else
    has happened. *)
Lemma executeCommand_aborted (gs : GameState) (fullCommand : string)
    (w : World) :
  isLoading gs = false -> gameOver gs = false ->
  let response := turnResponse remote gs fullCommand in
  throws gs response = true ->
  snd (executeCommand remote gs fullCommand w)
  = snd (emit (VisualUpdateEntered (scene_id response) false)
           (awaitingVisuals gs fullCommand w)).
Proof.
  intros Hloading Hover response Hthrows.
  rewrite (executeCommand_world gs fullCommand w Hloading Hover).
  fold response.
  pose proof (resolveVisuals_throws gs response
                (awaitingVisuals gs fullCommand w)) as Hres.
  rewrite Hthrows in Hres. rewrite Hres. reflexivity.
Qed.

(** A turn that does not throw commits. *)
Lemma executeCommand_committed (gs : GameState) (fullCommand : string)
    (w : World) :
  isLoading gs = false -> gameOver gs = false ->
  let response := turnResponse remote gs fullCommand in
  let r := resolveVisuals remote gs response
             (awaitingVisuals gs fullCommand w) in
  throws gs response = false ->
  exists newImage newHotspots,
    fst r = inr (newImage, newHotspots)
    /\ snd (executeCommand remote gs fullCommand w)
       = {| gameState :=
              {| isPlaying := isPlaying (gameState w);
                 currentSceneId := Some (scene_id response);
                 inventory :=
                   newInventory (inventory gs) (inventory_add response)
                     (inventory_remove response);
                 history :=
                   (history gs
                      ++ [ {| type := command; text := "> " +:+ fullCommand |} ])
                     ++ [ {| type := narrator; text := narrative response |} ];
                 imageUrl := newImage;
                 hotspots := newHotspots;
                 isLoading := false;
                 loadingMessage := loadingMessage (gameState (snd r));
                 gameOver :=
                   match is_game_over response with
                   | Some b => b
                   | None => false
                   end;
                 theme := theme (gameState w);
                 sceneCache :=
                   nextCache (sceneCache (gameState w)) response newImage
                     newHotspots |};
            selectedVerb := None;
            selectedItem := None;
            customInput := "";
            isMuted := isMuted w;
            audioContext := true;
            trace := trace (snd r)
                       ++ (if isMuted w then []
                           else [SpeechRequest (narrative response)]) |}.
Proof.
  intros Hloading Hover response r Hthrows.
  rewrite (executeCommand_world gs fullCommand w Hloading Hover).
  fold response r.
  pose proof (resolveVisuals_throws gs response
                (awaitingVisuals gs fullCommand w)) as Hres.
  rewrite Hthrows in Hres. fold r in Hres.
  destruct Hres as (image & found & Hres).
  exists image, found. rewrite Hres. auto.
Qed.

End Turn.

(** C5.  The cache test of [handleVisualUpdate] reads
    [gameState.sceneCache[sceneId]] on a plain object.  At the lighthouse
    nothing is cached under the scene id "constructor"; with
    [triggerUpdate] false the lookup all the same hits the member every
    object inherits, so the call takes the cache branch: it requests no
    image, although one would be delivered, and answers with undefined
    image and hotspots.  With the id "lighthouse_top", equally absent
    from the cache, the image is requested. *)
Theorem handleVisualUpdate_inherited_hit :
  let media :=
    scripted Rejected (InlineData "image/png" "BBBB") (detection [keyEntry]) in
  let call sceneId :=
    handleVisualUpdate media atLighthouse sceneId "a door" false ["door"]
      (render atLighthouse false) in
  SceneCache.entries (sceneCache atLighthouse) !! "constructor" = None
  /\ fst (call "constructor") = Undefined
  /\ trace (snd (call "constructor")) = [VisualUpdateEntered "constructor" false]
  /\ existsb is_image_request (trace (snd (call "constructor"))) = false
  /\ SceneCache.entries (sceneCache atLighthouse) !! "lighthouse_top" = None
  /\ existsb is_image_request (trace (snd (call "lighthouse_top"))) = true.
Proof. cbv zeta. repeat split; reflexivity. Qed.

(** C6.  In a turn that passes the guard, [handleVisualUpdate] is entered
    if and only if the scene id of the response differs from the current
    one or the response asks for a visual update; a change of scene id
    alone enters it, and a turn that keeps the scene id without asking for
    an update leaves the displayed image and hotspots as they were. *)
Theorem executeCommand_needsUpdate (remote : Remote) (gs : GameState)
    (fullCommand : string) (w : World) :
  isLoading gs = false -> gameOver gs = false -> gameState w = gs ->
  let response := turnResponse remote gs fullCommand in
  let final := snd (executeCommand remote gs fullCommand w) in
  exists evs,
    trace final = trace w ++ evs
    /\ (existsb is_policy_entry evs = true <->
          Some (scene_id response) <> currentSceneId gs
          \/ trigger_visual_update response = true)
    /\ (Some (scene_id response) <> currentSceneId gs ->
        trigger_visual_update response = false ->
        In (VisualUpdateEntered (scene_id response) false) evs)
    /\ (Some (scene_id response) = currentSceneId gs ->
        trigger_visual_update response = false ->
        imageUrl (gameState final) = imageUrl (gameState w)
        /\ hotspots (gameState final) = hotspots (gameState w)).
Proof.
  intros Hloading Hover Hw response final.
  pose proof (executeCommand_world remote gs fullCommand w Hloading Hover)
    as Hworld.
  fold response in Hworld. simpl in Hworld. fold final in Hworld.
  destruct (resolveVisuals_trace remote gs response
              (awaitingVisuals gs fullCommand w)) as (evs & Htrace & Hevs).
  pose proof (resolveVisuals_cases remote gs response
                (awaitingVisuals gs fullCommand w)) as (_ & Hcases).
  pose proof (needsUpdate_iff gs response) as Hneeds.
  simpl in Htrace, Hcases.
  set (r := resolveVisuals remote gs response
              (awaitingVisuals gs fullCommand w)) in *.
  assert (Htail : exists tail,
             trace final = trace (snd r) ++ tail
             /\ existsb is_policy_entry tail = false).
  { rewrite Hworld. destruct (fst r) as [thrown | [newImage newHotspots]].
    - exists []. rewrite List.app_nil_r. auto.
    - simpl. eexists. split; [reflexivity |].
      destruct (isMuted w); reflexivity. }
  destruct Htail as (tail & Hfinal & Htail).
  eexists. split.
  { rewrite Hfinal, Htrace, <- !List.app_assoc. reflexivity. }
  rewrite !List.existsb_app. simpl. rewrite Htail, orb_false_r.
  destruct (needsUpdate gs response) eqn:Hn.
  - destruct Hevs as (rest & -> & Hrest). simpl.
    split; [split; [intros _; apply Hneeds; reflexivity | reflexivity] |].
    split.
    + intros _ ->. simpl. right. left. reflexivity.
    + intros Hsame Htrig.
      destruct Hneeds as [Hneeds _]. destruct (Hneeds eq_refl); congruence.
  - subst evs. simpl.
    split; [split; [discriminate | intros H; apply Hneeds in H; discriminate] |].
    split.
    + intros Hdiff _. assert (false = true) by (apply Hneeds; auto).
      discriminate.
    + intros _ _. rewrite Hworld, Hcases. simpl. rewrite Hw. auto.
Qed.

Lemma executeCommand_needsUpdate_witness :
  exists evs,
    trace (snd (executeCommand (scripted (Parsed climb) MediaRejected Rejected)
                  atLighthouse "Walk to stairs" (render atLighthouse false)))
    = [] ++ evs
    /\ In (VisualUpdateEntered "lighthouse_top" false) evs.
Proof.
  destruct (executeCommand_needsUpdate
              (scripted (Parsed climb) MediaRejected Rejected)
              atLighthouse "Walk to stairs" (render atLighthouse false)
              eq_refl eq_refl eq_refl)
    as (evs & Htrace & _ & Hentered & _).
  exists evs. split; [exact Htrace |].
  apply Hentered; [discriminate | reflexivity].
Defined.

(** The state a turn that passes the guard ends in, in terms of what it
    displays: unless the turn throws, the cache is a copy of the own
    entries with the artifact of the response assigned under its scene id
    when an image is displayed. *)
Lemma executeCommand_cache_formula (remote : Remote) (gs : GameState)
    (fullCommand : string) (w : World) :
  isLoading gs = false -> gameOver gs = false -> gameState w = gs ->
  let response := turnResponse remote gs fullCommand in
  let final := gameState (snd (executeCommand remote gs fullCommand w)) in
  if throws gs response
  then sceneCache final = sceneCache gs
       /\ imageUrl final = imageUrl gs
       /\ hotspots final = hotspots gs
  else fst (resolveVisuals remote gs response
              (awaitingVisuals gs fullCommand w))
       = inr (imageUrl final, hotspots final)
       /\ sceneCache final
          = nextCache (sceneCache gs) response (imageUrl final)
              (hotspots final).
Proof.
  intros Hloading Hover Hw response final.
  destruct (throws gs response) eqn:Hthrows.
  - unfold final.
    rewrite (executeCommand_aborted remote gs fullCommand w Hloading Hover
               Hthrows).
    simpl. rewrite Hw. auto.
  - destruct (executeCommand_committed remote gs fullCommand w Hloading Hover
                Hthrows) as (newImage & newHotspots & Hres & Hworld).
    fold response in Hres. unfold final. rewrite Hworld. simpl.
    rewrite Hw. auto.
Qed.

Lemma nextCache_entries (cache : SceneCache.t) (response : AdventureResponse)
    (image : option string) (found : list Hotspot) :
  (truthy_str image = false ->
   SceneCache.entries (nextCache cache response image found)
   = SceneCache.entries cache)
  /\ (forall k, k <> scene_id response ->
        SceneCache.entries (nextCache cache response image found) !! k
        = SceneCache.entries cache !! k).
Proof.
  unfold nextCache. split.
  - intros ->. reflexivity.
  - intros k Hk. destruct (truthy_str image); [| reflexivity].
    rewrite set_entries_ne by exact Hk. reflexivity.
Qed.

(** C1 (as the code has it).  In a turn that passes the guard, the
    entries of the scene cache change at most under the scene id of the
    response, and not at all when no image is displayed after the turn.
    The artifact of the response is assigned under that id, so that a
    lookup there finds it, whenever the turn produced a new image, and
    also when it produced none but shows one: on a turn that resolves no
    visuals, with the image and hotspots already displayed, and on a turn
    answered from the cache, with the cached image and hotspots; in both
    cases with the description and interactables of the response.  Under
    any scene id but "__proto__" the assignment is an entry of the
    cache. *)
Theorem executeCommand_cache_write (remote : Remote) (gs : GameState)
    (fullCommand : string) (w : World) :
  isLoading gs = false -> gameOver gs = false -> gameState w = gs ->
  let response := turnResponse remote gs fullCommand in
  let final := gameState (snd (executeCommand remote gs fullCommand w)) in
  let assigned image found :=
    SceneCache.set (SceneCache.spread (sceneCache gs)) (scene_id response)
      (artifact response image found) in
  (truthy_str (imageUrl final) = false ->
   SceneCache.entries (sceneCache final) = SceneCache.entries (sceneCache gs))
  /\ (forall k, k <> scene_id response ->
        SceneCache.entries (sceneCache final) !! k
        = SceneCache.entries (sceneCache gs) !! k)
  /\ (forall mimeType data,
        needsUpdate gs response = true ->
        trigger_visual_update response = true
        \/ SceneCache.get (sceneCache gs) (scene_id response)
           = SceneCache.Falsy ->
        image_reply remote (visual_description response)
        = InlineData mimeType data ->
        imageUrl final = Some ("data:" +:+ mimeType +:+ ";base64," +:+ data)
        /\ sceneCache final
           = assigned ("data:" +:+ mimeType +:+ ";base64," +:+ data)
               (hotspots final))
  /\ (needsUpdate gs response = false ->
      truthy_str (imageUrl gs) = true ->
      sceneCache final
      = assigned (or_default (imageUrl gs) "") (hotspots gs))
  /\ (forall cached,
        needsUpdate gs response = true ->
        trigger_visual_update response = false ->
        SceneCache.get (sceneCache gs) (scene_id response)
        = SceneCache.Artifact cached ->
        sd_imageUrl cached <> "" ->
        sceneCache final
        = assigned (sd_imageUrl cached) (sd_hotspots cached))
  /\ (forall image found,
        SceneCache.get (assigned image found) (scene_id response)
        = SceneCache.Artifact (artifact response image found)
        /\ (scene_id response <> "__proto__" ->
            SceneCache.entries (assigned image found)
            = <[ scene_id response := artifact response image found ]>
                (SceneCache.entries (sceneCache gs)))).
Proof.
  intros Hloading Hover Hw response final assigned.
  pose proof (executeCommand_cache_formula remote gs fullCommand w
                Hloading Hover Hw) as Hformula.
  fold response final in Hformula. simpl in Hformula.
  pose proof (resolveVisuals_cases remote gs response
                (awaitingVisuals gs fullCommand w)) as (_ & Hcases).
  simpl in Hcases.
  assert (Hthrows : forall v,
            cacheTest gs (scene_id response) (trigger_visual_update response)
            = v -> v <> SceneCache.Other -> throws gs response = false).
  { intros v Htest Hv. unfold throws. rewrite Htest.
    destruct v; [| contradiction |]; apply andb_false_r. }
  repeat apply conj.
  - intros Hfalsy. destruct (throws gs response).
    + destruct Hformula as (-> & _). reflexivity.
    + destruct Hformula as (_ & ->).
      apply nextCache_entries, Hfalsy.
  - intros k Hk. destruct (throws gs response).
    + destruct Hformula as (-> & _). reflexivity.
    + destruct Hformula as (_ & ->).
      apply nextCache_entries, Hk.
  - intros mimeType data Hneeds Hgen Hreply.
    apply cacheTest_falsy in Hgen. rename Hgen into Htest.
    rewrite (Hthrows _ Htest) in Hformula by discriminate.
    destruct Hformula as (Hres & Hcache).
    rewrite Hneeds, Htest in Hcases. destruct Hcases as (Hfst & _).
    rewrite Hfst in Hres. unfold generatedImage in Hres.
    rewrite Hreply in Hres. simpl in Hres.
    injection Hres as Himage Hhotspots.
    change (Some ("data:" +:+ mimeType +:+ ";base64," +:+ data)
            = imageUrl final) in Himage.
    split; [congruence |].
    rewrite Hcache, <- Himage. reflexivity.
  - intros Hneeds Hshown.
    assert (Hno : throws gs response = false)
      by (unfold throws; rewrite Hneeds; reflexivity).
    rewrite Hno in Hformula. destruct Hformula as (Hres & Hcache).
    rewrite Hneeds in Hcases. rewrite Hcases in Hres. simpl in Hres.
    injection Hres as Himage Hhotspots.
    rewrite Hcache, <- Himage, <- Hhotspots. unfold nextCache.
    rewrite Hshown. reflexivity.
  - intros cached Hneeds Htrigger Hcached Himg.
    assert (Htest : cacheTest gs (scene_id response)
                      (trigger_visual_update response)
                    = SceneCache.Artifact cached).
    { unfold cacheTest. rewrite Htrigger. exact Hcached. }
    rewrite (Hthrows _ Htest) in Hformula by discriminate.
    destruct Hformula as (Hres & Hcache).
    rewrite Hneeds, Htest in Hcases. rewrite Hcases in Hres. simpl in Hres.
    apply String.eqb_neq in Himg.
    unfold or_str in Hres. simpl in Hres. rewrite Himg in Hres.
    simpl in Hres. injection Hres as Himage Hhotspots.
    rewrite Hcache, <- Himage, <- Hhotspots. unfold nextCache. simpl.
    rewrite Himg. reflexivity.
  - intros image found. split; [apply get_set_eq |].
    intros Hid. unfold assigned. rewrite set_entries by now left.
    reflexivity.
Qed.

Lemma executeCommand_cache_write_witness :
  SceneCache.entries
    (sceneCache
       (gameState
          (snd (executeCommand
                  (scripted (Parsed climb) (InlineData "image/png" "BBBB")
                     (detection [keyEntry; lampEntry]))
                  atLighthouse "Walk to stairs" (render atLighthouse false)))))
    !! "lighthouse_top"
  = Some (artifact climb "data:image/png;base64,BBBB"
            (hotspots
               (gameState
                  (snd (executeCommand
                          (scripted (Parsed climb)
                             (InlineData "image/png" "BBBB")
                             (detection [keyEntry; lampEntry]))
                          atLighthouse "Walk to stairs"
                          (render atLighthouse false)))))).
Proof.
  pose proof (executeCommand_cache_write
                (scripted (Parsed climb) (InlineData "image/png" "BBBB")
                   (detection [keyEntry; lampEntry]))
                atLighthouse "Walk to stairs" (render atLighthouse false)
                eq_refl eq_refl eq_refl)
    as (_ & _ & Hnew & _ & _ & Hassigned).
  destruct (Hnew "image/png" "BBBB" eq_refl (or_intror eq_refl) eq_refl)
    as (_ & Hcache).
  rewrite Hcache.
  rewrite (proj2 (Hassigned _ _)) by discriminate.
  apply lookup_insert_eq.
Defined.

(** C1 (as stated) fails.  At the lighthouse, a command that keeps the
    scene and asks for no redraw generates no visuals: the policy is not
    entered and no image is requested.  The cached artifact of the scene
    is overwritten all the same, with the description and interactables
    of this response. *)
Lemma executeCommand_caches_without_new_visuals :
  let final :=
    snd (executeCommand (scripted (Parsed lookAround) MediaRejected Rejected)
           atLighthouse "Look at key" (render atLighthouse false)) in
  existsb is_policy_entry (trace final) = false
  /\ existsb is_image_request (trace final) = false
  /\ SceneCache.entries (sceneCache atLighthouse) !! "lighthouse_base"
     = Some lighthouse
  /\ SceneCache.entries (sceneCache (gameState final)) !! "lighthouse_base"
     = Some (artifact lookAround pngImage [keyEntry])
  /\ sceneCache (gameState final) <> sceneCache atLighthouse.
Proof.
  cbv zeta.
  split; [reflexivity |]. split; [reflexivity |].
  split; [reflexivity |]. split; [reflexivity |].
  intros Heq.
  apply (f_equal (fun cache =>
                    sd_visualDescription
                      <$> SceneCache.entries cache !! "lighthouse_base"))
    in Heq.
  vm_compute in Heq. discriminate.
Qed.

(** C3 (as the code has it).  When the image request of a turn fails,
    [handleVisualUpdate] returns no image and no hotspots, the turn keeps
    the image that was displayed, and the displayed hotspots become the
    empty list. *)
Theorem executeCommand_image_failure (remote : Remote) (gs : GameState)
    (fullCommand : string) (w : World) :
  isLoading gs = false -> gameOver gs = false -> gameState w = gs ->
  let response := turnResponse remote gs fullCommand in
  let final := gameState (snd (executeCommand remote gs fullCommand w)) in
  needsUpdate gs response = true ->
  trigger_visual_update response = true
  \/ SceneCache.get (sceneCache gs) (scene_id response) = SceneCache.Falsy ->
  no_image (image_reply remote (visual_description response)) ->
  (forall w0,
      fst (handleVisualUpdate remote gs (scene_id response)
             (visual_description response) (trigger_visual_update response)
             (interactables response) w0) = Visuals None []
      /\ In (ImageRequest (visual_description response))
           (trace (snd (handleVisualUpdate remote gs (scene_id response)
                          (visual_description response)
                          (trigger_visual_update response)
                          (interactables response) w0))))
  /\ imageUrl final = imageUrl (gameState w)
  /\ hotspots final = [].
Proof.
  intros Hloading Hover Hw response final Hneeds Hgen Hfail.
  apply cacheTest_falsy in Hgen. rename Hgen into Htest.
  assert (Hnone : generatedImage remote (visual_description response) = None)
    by (apply image_try_failed, Hfail).
  split.
  - intros w0.
    pose proof (handleVisualUpdate_cases remote gs (scene_id response)
                  (visual_description response)
                  (trigger_visual_update response) (interactables response) w0)
      as (_ & Hpol).
    simpl in Hpol. rewrite Htest in Hpol. destruct Hpol as (-> & ->).
    unfold detected. rewrite Hnone. split; [reflexivity |].
    apply in_or_app. right. simpl. auto.
  - pose proof (executeCommand_cache_formula remote gs fullCommand w
                  Hloading Hover Hw) as Hformula.
    fold response final in Hformula. simpl in Hformula.
    assert (Hno : throws gs response = false)
      by (unfold throws; rewrite Htest; apply andb_false_r).
    rewrite Hno in Hformula. destruct Hformula as (Hres & _).
    pose proof (resolveVisuals_cases remote gs response
                  (awaitingVisuals gs fullCommand w)) as (_ & Hcases).
    simpl in Hcases. rewrite Hneeds, Htest in Hcases.
    destruct Hcases as (Hfst & _). rewrite Hfst in Hres.
    unfold detected in Hres. rewrite Hnone in Hres. simpl in Hres.
    injection Hres as Himage Hhotspots.
    change (imageUrl gs = imageUrl final) in Himage.
    rewrite Hw. split; congruence.
Qed.

Lemma executeCommand_image_failure_witness :
  imageUrl
    (gameState
       (snd (executeCommand (scripted (Parsed climb) MediaRejected Rejected)
               atLighthouse "Walk to stairs" (render atLighthouse false))))
  = Some pngImage
  /\ hotspots
       (gameState
          (snd (executeCommand (scripted (Parsed climb) MediaRejected Rejected)
                  atLighthouse "Walk to stairs" (render atLighthouse false))))
     = [].
Proof.
  apply (executeCommand_image_failure
           (scripted (Parsed climb) MediaRejected Rejected)
           atLighthouse "Walk to stairs" (render atLighthouse false)
           eq_refl eq_refl eq_refl).
  - reflexivity.
  - right. reflexivity.
  - exact I.
Defined.

(** C3 (as stated) fails.  Climbing the stairs at the lighthouse asks for
    the image of a scene that is not cached; the request fails.  The image
    stays, but the hotspot that was displayed is gone, so what the player
    sees has changed. *)
Lemma executeCommand_image_failure_clears_hotspots :
  let final :=
    snd (executeCommand (scripted (Parsed climb) MediaRejected Rejected)
           atLighthouse "Walk to stairs" (render atLighthouse false)) in
  In (ImageRequest "the lamp room") (trace final)
  /\ imageUrl (gameState final) = imageUrl atLighthouse
  /\ hotspots atLighthouse = [keyEntry]
  /\ hotspots (gameState final) = []
  /\ (imageUrl (gameState final), hotspots (gameState final))
     <> (imageUrl atLighthouse, hotspots atLighthouse).
Proof.
  cbv zeta.
  split; [vm_compute; auto |]. split; [reflexivity |].
  split; [reflexivity |]. split; [reflexivity |].
  intros Heq. apply (f_equal snd) in Heq. vm_compute in Heq. discriminate.
Qed.

(** ** The guard of a turn *)

(** C2 (as the code has it).  When a turn is in flight ([isLoading]) or the
    game is over, [executeCommand] does nothing at all: the state, the
    selection and the trace of requests are as before. *)
Theorem executeCommand_guard (remote : Remote) (gs : GameState)
    (fullCommand : string) (w : World) :
  isLoading gs = true \/ gameOver gs = true ->
  executeCommand remote gs fullCommand w = (tt, w).
Proof.
  intros Hguard. unfold executeCommand.
  assert (Hor : isLoading gs || gameOver gs = true).
  { destruct Hguard as [-> | ->]; [reflexivity | apply orb_true_r]. }
  rewrite Hor. reflexivity.
Qed.

Lemma executeCommand_guard_witness :
  executeCommand unreachable midTurn "Look at key" (render midTurn false)
  = (tt, render midTurn false).
Proof.
  apply (executeCommand_guard unreachable midTurn "Look at key"
           (render midTurn false)).
  left. reflexivity.
Defined.

(** C2 (as stated) fails for a game that is not playing: the guard of
    [executeCommand] does not look at [isPlaying], so from the initial
    state the command is logged, the narrative request is sent and the
    turn is committed. *)
Lemma executeCommand_runs_when_not_playing :
  let final :=
    snd (executeCommand unreachable INITIAL_STATE "look"
           (render INITIAL_STATE false)) in
  isPlaying INITIAL_STATE = false
  /\ length (history INITIAL_STATE) = 0%nat
  /\ length (history (gameState final)) = 2%nat
  /\ In (ActionRequest "look" "" [] None) (trace final).
Proof.
  cbv zeta.
  split; [reflexivity |]. split; [reflexivity |]. split; [reflexivity |].
  vm_compute. auto.
Qed.

(** ** Starting a game *)

Section Start.

Variable remote : Remote.

(** The world [handleStartGame] ends in. *)
Lemma handleStartGame_world (gs : GameState) (themeInput : string) (w : World) :
  let response := startResponse remote themeInput in
  let image := generatedImage remote (visual_description response) in
  let found :=
    detected remote (visual_description response) (interactables response) in
  let pol := handleVisualUpdate remote gs (scene_id response)
               (visual_description response) true (interactables response)
               (initializing themeInput w) in
  snd (handleStartGame remote gs themeInput w)
  = {| gameState :=
         {| isPlaying := true;
            currentSceneId := Some (scene_id response);
            inventory :=
              match inventory_add response with
              | Some item => if String.eqb item "" then [] else [item]
              | None => []
              end;
            history := [ {| type := narrator; text := narrative response |} ];
            imageUrl := image;
            hotspots := found;
            isLoading := false;
            loadingMessage := loadingMessage (gameState (snd pol));
            gameOver := gameOver (gameState w);
            theme := themeInput;
            sceneCache :=
              SceneCache.literal (scene_id response)
                (artifact response (or_default image "") found) |};
       selectedVerb := selectedVerb w;
       selectedItem := selectedItem w;
       customInput := customInput w;
       isMuted := isMuted w;
       audioContext := true;
       trace := trace w
                  ++ [StartRequest themeInput;
                      VisualUpdateEntered (scene_id response) true;
                      ImageRequest (visual_description response)]
                  ++ detectionRequests remote (visual_description response)
                       (interactables response)
                  ++ (if isMuted w then []
                      else [SpeechRequest (narrative response)]) |}.
Proof.
  intros response image found pol.
  pose proof (handleVisualUpdate_cases remote gs (scene_id response)
                (visual_description response) true (interactables response)
                (initializing themeInput w))
    as ((Hsame & Hverb & Hitem & Hinput & Hmuted & Haudio) & Hres & Htrace).
  fold pol image found in Hsame, Hverb, Hitem, Hinput, Hmuted, Haudio,
    Hres, Htrace.
  specialize (Hsame "").
  pose proof (f_equal isPlaying Hsame) as Hplaying.
  pose proof (f_equal theme Hsame) as Htheme.
  pose proof (f_equal gameOver Hsame) as Hover.
  simpl in Hover, Hplaying, Htheme, Hverb, Hitem, Hinput, Hmuted, Haudio,
    Htrace.
  unfold handleStartGame, generateAdventureStart, bind, initAudio,
    setGameState, emit, ret.
  cbn beta iota zeta delta [fst snd gameState selectedVerb selectedItem
    customInput isMuted audioContext trace].
  change (catch _ start_fallback) with response.
  change (mkWorld _ (selectedVerb w) (selectedItem w) (customInput w)
            (isMuted w) true (trace w ++ [StartRequest themeInput]))
    with (initializing themeInput w).
  fold pol.
  destruct pol as [res w2].
  simpl in *. subst res.
  unfold playAudio, getMuted, bind, initAudio, generateNarratorAudio, emit, ret.
  simpl.
  rewrite Hmuted, Hover, Hplaying, Htheme, Hverb, Hitem, Hinput, Htrace.
  unfold artifact.
  destruct (isMuted w); simpl;
    rewrite ?List.app_nil_r, ?Haudio, <- ?List.app_assoc; reflexivity.
Qed.


End Start.




(** C10.  After [handleStartGame] has committed, the scene cache is the
    object with the single key [response.scene_id], whatever it held
    before; the entry is there even when no image could be generated, and
    then its image is the empty string while the displayed image is
    [null]. *)
Theorem handleStartGame_cache (remote : Remote) (gs : GameState)
    (themeInput : string) (w : World) :
  let response := startResponse remote themeInput in
  let final := gameState (snd (handleStartGame remote gs themeInput w)) in
  sceneCache final
  = SceneCache.literal (scene_id response)
      (artifact response (or_default (imageUrl final) "") (hotspots final))
  /\ (forall k, is_Some (SceneCache.entries (sceneCache final) !! k)
                <-> k = scene_id response)
  /\ size (SceneCache.entries (sceneCache final)) = 1%nat
  /\ (no_image (image_reply remote (visual_description response)) ->
      imageUrl final = None
      /\ SceneCache.entries (sceneCache final) !! scene_id response
         = Some (artifact response "" [])).
Proof.
  intros response final. unfold final.
  rewrite (handleStartGame_world remote gs themeInput w). fold response.
  simpl.
  split; [reflexivity |]. split; [| split].
  - intros k. rewrite lookup_singleton_is_Some. split; auto.
  - apply map_size_singleton.
  - intros Hfail. unfold detected.
    rewrite (image_try_failed _ Hfail : generatedImage remote _ = None).
    split; [reflexivity |]. apply lookup_singleton_eq.
Qed.

Lemma handleStartGame_cache_witness :
  imageUrl
    (gameState
       (snd (handleStartGame (scripted (Parsed climb) MediaRejected Rejected)
               atLighthouse "haunted lighthouse" (render atLighthouse false))))
  = None
  /\ SceneCache.entries
       (sceneCache
          (gameState
             (snd (handleStartGame
                     (scripted (Parsed climb) MediaRejected Rejected)
                     atLighthouse "haunted lighthouse"
                     (render atLighthouse false)))))
     !! "lighthouse_top"
     = Some (artifact climb "" []).
Proof.
  apply (handleStartGame_cache (scripted (Parsed climb) MediaRejected Rejected)
           atLighthouse "haunted lighthouse" (render atLighthouse false)).
  exact I.
Defined.

(** ** Failure of the narrative call *)

Lemma catch_failed (r : Reply AdventureResponse) (fallback : AdventureResponse) :
  failed r -> catch (narrative_try r) fallback = fallback.
Proof. destruct r; simpl; [reflexivity .. | contradiction]. Qed.




(** The end-to-end scenario of the specification: a game started on the
    theme "haunted lighthouse" against a narrative stub and a media stub
    that returns one image and one hotspot. *)
Example handleStartGame_lighthouse :
  let arrive :=
    {| narrative := "You arrive.";
       scene_id := "lighthouse_base";
       visual_description := "a lighthouse at dusk";
       trigger_visual_update := true;
       interactables := ["lantern"];
       inventory_add := None;
       inventory_remove := None;
       is_game_over := None |} in
  let lantern := JObj [("name", JStr "lantern"); ("box", box4 40 40 60 60)] in
  let final :=
    gameState
      (snd (handleStartGame
              (scripted (Parsed arrive) (InlineData "image/png" "AAAA")
                 (detection [lantern]))
              INITIAL_STATE "haunted lighthouse" (render INITIAL_STATE false))) in
  currentSceneId final = Some "lighthouse_base"
  /\ history final = [ {| type := narrator; text := "You arrive." |} ]
  /\ inventory final = []
  /\ SceneCache.get (sceneCache final) "lighthouse_base"
     = SceneCache.Artifact (artifact arrive pngImage [lantern]).
Proof. cbv zeta. repeat split; reflexivity. Qed.

(** * Further properties of the code *)

(** ** geminiService.ts: hotspot detection *)

Lemma filter_sublist {A} (f : A -> bool) (l : list A) :
  sublist (List.filter f l) l.
Proof.
  induction l as [| x l IH]; simpl; [constructor |].
  destruct (f x); [apply sublist_skip | apply sublist_cons]; exact IH.
Qed.

(** X1.  [detectSceneHotspots] sends one detection request when there are
    items to look for and none when there are not, in which case it
    returns the empty list; it never touches the React state. *)
Theorem detectSceneHotspots_requests (remote : Remote) (imageBase64 : string)
    (items : list string) (w : World) :
  let kept := fst (detectSceneHotspots remote imageBase64 items w) in
  let w' := snd (detectSceneHotspots remote imageBase64 items w) in
  gameState w' = gameState w
  /\ match items with
     | [] => trace w' = trace w /\ kept = []
     | _ :: _ => trace w' = trace w ++ [HotspotRequest imageBase64 items]
     end.
Proof.
  unfold detectSceneHotspots.
  destruct items as [| i items]; simpl; auto.
Qed.

(** X2.  Whatever the detection call comes back with, the hotspots
    returned are either none at all, or a selection, in their original
    order, of the entries of the [hotspots] array of a reply that parsed:
    nothing is invented, and a reply that is [null], has no [hotspots]
    member or has one that is not an array yields nothing. *)
Theorem detectSceneHotspots_sublist (remote : Remote) (imageBase64 : string)
    (items : list string) (w : World) :
  let kept := fst (detectSceneHotspots remote imageBase64 items w) in
  kept = []
  \/ (items <> []
      /\ exists result entries,
           hotspot_reply remote imageBase64 items = Parsed result
           /\ member result "hotspots" = Some (JArr entries)
           /\ sublist kept entries).
Proof.
  unfold detectSceneHotspots.
  destruct items as [| i items]; simpl; [now left |].
  destruct (hotspot_reply remote imageBase64 (i :: items))
    as [| | | result] eqn:Hreply; simpl; try (now left).
  destruct result as [| b | n | s | elems | props]; simpl; try (now left).
  destruct (own "hotspots" props) as [v |] eqn:Hown; simpl; [| now left].
  destruct v as [| b | n | s | entries | inner]; simpl;
    try (now left);
    try (destruct b; simpl; now left);
    try (destruct (negb (n =? 0)); simpl; now left);
    try (destruct (negb (String.eqb s "")); simpl; now left).
  right. split; [discriminate |].
  exists (JObj props), entries. simpl.
  split; [reflexivity |]. split; [exact Hown |]. apply filter_sublist.
Qed.

(** ** App.tsx: audio decoding *)

Section AudioLossless.

Lemma byte_value_inj (a b : Byte.byte) : byte_value a = byte_value b -> a = b.
Proof.
  unfold byte_value. intros H. apply N2Z.inj in H.
  pose proof (Byte.of_to_N a) as Ha. rewrite H, Byte.of_to_N in Ha.
  congruence.
Qed.

Lemma Int16Array_inj (d1 d2 : list Byte.byte) :
  Nat.even (length d1) = true -> Nat.even (length d2) = true ->
  Int16Array d1 = Int16Array d2 -> d1 = d2.
Proof.
  revert d2.
  induction d1 as [| b | lo hi rest IH] using pairs_ind; intros d2 H1 H2 Heq.
  - destruct d2 as [| lo2 [| hi2 rest2]]; simpl in *; congruence.
  - simpl in H1. discriminate.
  - destruct d2 as [| lo2 [| hi2 rest2]]; simpl in *; try discriminate.
    injection Heq as Hhead Htail.
    pose proof (byte_value_range lo). pose proof (byte_value_range hi).
    pose proof (byte_value_range lo2). pose proof (byte_value_range hi2).
    assert (Hlo : byte_value lo = byte_value lo2
                  /\ byte_value hi = byte_value hi2).
    { destruct (byte_value lo + 256 * byte_value hi <? 32768) eqn:E1;
        destruct (byte_value lo2 + 256 * byte_value hi2 <? 32768) eqn:E2;
        try apply Z.ltb_lt in E1; try apply Z.ltb_ge in E1;
        try apply Z.ltb_lt in E2; try apply Z.ltb_ge in E2; lia. }
    destruct Hlo as (Hlo & Hhi).
    apply byte_value_inj in Hlo, Hhi. subst.
    f_equal. f_equal. apply IH; assumption.
Qed.

Lemma samples_inj (l1 l2 : list Z) :
  map (fun n => (inject_Z n / inject_Z 32768)%Q) l1
  = map (fun n => (inject_Z n / inject_Z 32768)%Q) l2 ->
  l1 = l2.
Proof.
  revert l2. induction l1 as [| n l1 IH]; intros [| m l2] Heq;
    simpl in Heq; try discriminate; [reflexivity |].
  injection Heq as Hhead Htail.
  f_equal; [| apply IH; exact Htail].
  unfold Qdiv, Qmult, Qinv, inject_Z in Hhead. simpl in Hhead. lia.
Qed.

End AudioLossless.

(** X3.  Decoding loses nothing of a byte stream of even length: two such
    streams with the same samples are the same stream.  A stream of odd
    length decodes exactly like the stream with one zero byte appended. *)
Theorem decodeAudioData_lossless (d1 d2 : list Byte.byte) :
  (Nat.even (length d1) = true -> Nat.even (length d2) = true ->
   channelData (decodeAudioData d1) = channelData (decodeAudioData d2) ->
   d1 = d2)
  /\ (Nat.odd (length d1) = true ->
      decodeAudioData d1 = decodeAudioData (d1 ++ [Byte.x00])).
Proof.
  split.
  - intros H1 H2 Heq. unfold decodeAudioData in Heq. simpl in Heq.
    rewrite !odd_length_test in Heq.
    rewrite <- !Nat.negb_even, H1, H2 in Heq. simpl in Heq.
    apply Int16Array_inj; [exact H1 | exact H2 |].
    apply samples_inj, Heq.
  - intros Hodd. unfold decodeAudioData.
    rewrite !odd_length_test, Hodd, length_app, Nat.add_1_r.
    rewrite Nat.odd_succ, <- Nat.negb_odd, Hodd. reflexivity.
Qed.

Lemma decodeAudioData_lossless_witness :
  decodeAudioData [Byte.x01; Byte.x02; Byte.x03]
  = decodeAudioData ([Byte.x01; Byte.x02; Byte.x03] ++ [Byte.x00]).
Proof.
  apply (proj2 (decodeAudioData_lossless [Byte.x01; Byte.x02; Byte.x03] [])).
  reflexivity.
Defined.

(** ** App.tsx: the context sent with a command *)

(** X4.  The history context of a command is built from the last five
    log entries only: older entries do not influence it, and a history of
    at most five entries is used whole. *)
Theorem historyContext_last_five (older recent : list LogEntry) :
  (length recent = 5%nat ->
   historyContext (older ++ recent) = historyContext recent)
  /\ ((length recent <= 5)%nat ->
      historyContext recent = String.concat newline (map text recent)).
Proof.
  unfold historyContext. split.
  - intros Hlen. rewrite length_app, Hlen.
    replace (length older + 5 - 5)%nat with (length older + 0)%nat by lia.
    rewrite List.skipn_app, Nat.add_0_r, List.skipn_all.
    replace (length older - length older)%nat with 0%nat by lia.
    reflexivity.
  - intros Hlen.
    replace (length recent - 5)%nat with 0%nat by lia. reflexivity.
Qed.

Lemma historyContext_last_five_witness :
  historyContext
    ([ {| type := narrator; text := "You arrive." |} ]
     ++ [ {| type := command; text := "> a" |};
          {| type := narrator; text := "b" |};
          {| type := command; text := "> c" |};
          {| type := narrator; text := "d" |};
          {| type := command; text := "> e" |} ])
  = historyContext
      [ {| type := command; text := "> a" |};
        {| type := narrator; text := "b" |};
        {| type := command; text := "> c" |};
        {| type := narrator; text := "d" |};
        {| type := command; text := "> e" |} ].
Proof.
  apply (proj1 (historyContext_last_five
                  [ {| type := narrator; text := "You arrive." |} ]
                  [ {| type := command; text := "> a" |};
                    {| type := narrator; text := "b" |};
                    {| type := command; text := "> c" |};
                    {| type := narrator; text := "d" |};
                    {| type := command; text := "> e" |} ])).
  reflexivity.
Defined.

(** ** App.tsx: the inventory block *)

Lemma newInventory_In (inv : list string) (add rem : option string)
    (x : string) :
  In x (newInventory inv add rem) <->
  (In x inv \/ (add = Some x /\ x <> ""))
  /\ ~ (rem = Some x /\ x <> "").
Proof.
  unfold newInventory.
  set (added := match add with
                | Some item =>
                    if negb (String.eqb item "") && negb (includes inv item)
                    then inv ++ [item] else inv
                | None => inv
                end).
  assert (Hadded : In x added <-> In x inv \/ (add = Some x /\ x <> "")).
  { unfold added. destruct add as [item |].
    - destruct (String.eqb_spec item "") as [-> | Hitem]; simpl.
      + split; [auto | intros [H | [[= <-] H]]; [exact H | congruence]].
      + destruct (includes inv item) eqn:Hinc; simpl.
        * apply includes_In in Hinc.
          split; [auto | intros [H | [[= <-] _]]; assumption].
        * rewrite List.in_app_iff. simpl. split.
          -- intros [H | [<- | []]]; auto.
          -- intros [H | [[= <-] _]]; auto.
    - split; [auto | intros [H | [H _]]; [exact H | discriminate]]. }
  destruct rem as [item |].
  - destruct (String.eqb_spec item "") as [-> | Hitem]; simpl.
    + rewrite Hadded. split; [| tauto].
      intros H. split; [exact H |]. intros [[= <-] Hne]. congruence.
    + rewrite List.filter_In, Hadded, negb_true_iff, String.eqb_neq.
      split.
      * intros [H Hne]. split; [exact H |]. intros [[= <-] _]. congruence.
      * intros [H Hnot]. split; [exact H |]. intros ->. apply Hnot. auto.
  - rewrite Hadded. split; [| tauto].
    intros H. split; [exact H |]. intros [Hrem _]. discriminate.
Qed.

(** X5.  Exactly which items the new inventory holds: an item is held
    after the update if and only if it was held before or is the
    (non-empty) item to add, and it is not the (non-empty) item to remove.
    So a response that adds and removes the same item leaves it out, and
    the empty name never enters. *)
Theorem newInventory_members (inv : list string) (add rem : option string)
    (x : string) :
  In x (newInventory inv add rem) <->
  (In x inv \/ (add = Some x /\ x <> ""))
  /\ ~ (rem = Some x /\ x <> "").
Proof. apply newInventory_In. Qed.

(** X6.  The update keeps the display order: the new inventory is the old
    one followed by the added item, with some entries left out. *)
Theorem newInventory_order (inv : list string) (add rem : option string) :
  sublist (newInventory inv add rem)
    (inv ++ match add with Some item => [item] | None => [] end).
Proof.
  unfold newInventory.
  assert (Hadded :
    sublist
      match add with
      | Some item =>
          if negb (String.eqb item "") && negb (includes inv item)
          then inv ++ [item] else inv
      | None => inv
      end
      (inv ++ match add with Some item => [item] | None => [] end)).
  { destruct add as [item |].
    - destruct (negb (String.eqb item "") && negb (includes inv item)).
      + reflexivity.
      + apply sublist_inserts_r. reflexivity.
    - rewrite List.app_nil_r. reflexivity. }
  destruct rem as [item |]; [| exact Hadded].
  destruct (negb (String.eqb item "")); [| exact Hadded].
  etransitivity; [apply filter_sublist | exact Hadded].
Qed.

(** ** App.tsx: the visual resolution policy *)

Section Policy.

Variable remote : Remote.

Lemma existsb_eqb_In (k : string) (l : list string) :
  existsb (String.eqb k) l = true <-> In k l.
Proof.
  rewrite List.existsb_exists. split.
  - intros (x & Hin & Heq). apply String.eqb_eq in Heq. now subst.
  - intros Hin. exists k. split; [exact Hin | apply String.eqb_refl].
Qed.

(** The requests of one call of [handleVisualUpdate], with what it
    returns in each case. *)
Lemma handleVisualUpdate_shape (gs : GameState) (sceneId visualDesc : string)
    (triggerUpdate : bool) (items : list string) (w : World) :
  let res := fst (handleVisualUpdate remote gs sceneId visualDesc
                    triggerUpdate items w) in
  let w' := snd (handleVisualUpdate remote gs sceneId visualDesc
                   triggerUpdate items w) in
  exists evs,
    trace w' = trace w ++ VisualUpdateEntered sceneId triggerUpdate :: evs
    /\ (existsb is_image_request evs = true <->
          triggerUpdate = true
          \/ SceneCache.get (sceneCache gs) sceneId = SceneCache.Falsy)
    /\ match cacheTest gs sceneId triggerUpdate with
       | SceneCache.Artifact cached =>
           evs = []
           /\ triggerUpdate = false
           /\ SceneCache.get (sceneCache gs) sceneId = SceneCache.Artifact cached
           /\ res = Visuals (Some (sd_imageUrl cached)) (sd_hotspots cached)
       | SceneCache.Other =>
           evs = []
           /\ triggerUpdate = false
           /\ SceneCache.get (sceneCache gs) sceneId = SceneCache.Other
           /\ res = Undefined
       | SceneCache.Falsy =>
           (evs = [ImageRequest visualDesc]
            /\ (res = Visuals None []
                \/ exists img,
                     res = Visuals (Some img) [] /\ img <> "" /\ items = []))
           \/ (exists img found,
                 evs = [ImageRequest visualDesc; HotspotRequest img items]
                 /\ items <> []
                 /\ catch (image_try (image_reply remote visualDesc)) None
                    = Some img
                 /\ img <> ""
                 /\ res = Visuals (Some img) found
                 /\ Forall (fun h => keepHotspot h = true) found)
       end.
Proof.
  intros res w'.
  pose proof (handleVisualUpdate_cases remote gs sceneId visualDesc
                triggerUpdate items w) as (_ & Hpol).
  fold res w' in Hpol.
  unfold cacheTest in *.
  destruct triggerUpdate; simpl in *.
  - destruct Hpol as (Hres & Htrace).
    eexists. split; [exact Htrace |].
    split; [simpl; split; auto |].
    pose proof (detected_kept remote visualDesc items) as Hkept.
    unfold detected, detectionRequests, generatedImage in *.
    destruct (catch (image_try (image_reply remote visualDesc)) None)
      as [img |] eqn:Himg; [| left; auto].
    pose proof (image_try_truthy _ _ Himg) as Htruthy.
    apply String.eqb_neq in Htruthy.
    destruct items as [| i items]; simpl in *; [left; eauto 10 |].
    right. exists img. eexists. repeat split; eauto; discriminate.
  - destruct (SceneCache.get (sceneCache gs) sceneId) as [cached | |] eqn:Hget.
    + destruct Hpol as (Hres & ->). exists []. split; [reflexivity |].
      split; [simpl; split; [discriminate | intros [|]; discriminate] |].
      auto.
    + destruct Hpol as (Hres & ->). exists []. split; [reflexivity |].
      split; [simpl; split; [discriminate | intros [|]; discriminate] |].
      auto.
    + destruct Hpol as (Hres & Htrace).
      eexists. split; [exact Htrace |].
      split; [simpl; split; auto |].
      pose proof (detected_kept remote visualDesc items) as Hkept.
      unfold detected, detectionRequests, generatedImage in *.
      destruct (catch (image_try (image_reply remote visualDesc)) None)
        as [img |] eqn:Himg; [| left; auto].
      pose proof (image_try_truthy _ _ Himg) as Htruthy.
      apply String.eqb_neq in Htruthy.
      destruct items as [| i items]; simpl in *; [left; eauto 10 |].
      right. exists img. eexists. repeat split; eauto; discriminate.
Qed.

End Policy.

(** X7.  One call of [handleVisualUpdate] requests an image exactly when
    the redraw is forced or the lookup [sceneCache[sceneId]] is falsy.
    When the lookup finds something it sends nothing: it answers with the
    image and hotspots of the artifact found, or, when what it found is
    no artifact (a member the object inherits), with undefined image and
    hotspots.  Otherwise it sends one image request, followed by one
    detection request only if the image arrived and there are
    interactables; the detection is then run on the image just generated.
    Without an image, or without interactables, the hotspots returned are
    empty; the hotspots of a detection all passed the filter. *)
Theorem handleVisualUpdate_requests (remote : Remote) (gs : GameState)
    (sceneId visualDesc : string) (triggerUpdate : bool)
    (items : list string) (w : World) :
  let res := fst (handleVisualUpdate remote gs sceneId visualDesc
                    triggerUpdate items w) in
  let w' := snd (handleVisualUpdate remote gs sceneId visualDesc
                   triggerUpdate items w) in
  exists evs,
    trace w' = trace w ++ VisualUpdateEntered sceneId triggerUpdate :: evs
    /\ (existsb is_image_request evs = true <->
          triggerUpdate = true
          \/ SceneCache.get (sceneCache gs) sceneId = SceneCache.Falsy)
    /\ match cacheTest gs sceneId triggerUpdate with
       | SceneCache.Artifact cached =>
           evs = []
           /\ triggerUpdate = false
           /\ SceneCache.get (sceneCache gs) sceneId = SceneCache.Artifact cached
           /\ res = Visuals (Some (sd_imageUrl cached)) (sd_hotspots cached)
       | SceneCache.Other =>
           evs = []
           /\ triggerUpdate = false
           /\ SceneCache.get (sceneCache gs) sceneId = SceneCache.Other
           /\ res = Undefined
       | SceneCache.Falsy =>
           (evs = [ImageRequest visualDesc]
            /\ (res = Visuals None []
                \/ exists img,
                     res = Visuals (Some img) [] /\ img <> "" /\ items = []))
           \/ (exists img found,
                 evs = [ImageRequest visualDesc; HotspotRequest img items]
                 /\ items <> []
                 /\ catch (image_try (image_reply remote visualDesc)) None
                    = Some img
                 /\ img <> ""
                 /\ res = Visuals (Some img) found
                 /\ Forall (fun h => keepHotspot h = true) found)
       end.
Proof. apply handleVisualUpdate_shape. Qed.

Lemma handleVisualUpdate_untouched (remote : Remote) (gs : GameState)
    (sceneId visualDesc : string) (triggerUpdate : bool)
    (items : list string) (w : World) :
  let w' := snd (handleVisualUpdate remote gs sceneId visualDesc
                   triggerUpdate items w) in
  sceneCache (gameState w') = sceneCache (gameState w)
  /\ imageUrl (gameState w') = imageUrl (gameState w)
  /\ hotspots (gameState w') = hotspots (gameState w)
  /\ inventory (gameState w') = inventory (gameState w)
  /\ history (gameState w') = history (gameState w)
  /\ currentSceneId (gameState w') = currentSceneId (gameState w)
  /\ isLoading (gameState w') = isLoading (gameState w)
  /\ gameOver (gameState w') = gameOver (gameState w)
  /\ isPlaying (gameState w') = isPlaying (gameState w)
  /\ theme (gameState w') = theme (gameState w)
  /\ selectedVerb w' = selectedVerb w
  /\ selectedItem w' = selectedItem w
  /\ customInput w' = customInput w
  /\ isMuted w' = isMuted w.
Proof.
  intros w'.
  pose proof (handleVisualUpdate_cases remote gs sceneId visualDesc
                triggerUpdate items w)
    as ((Hsame & Hverb & Hitem & Hinput & Hmuted & _) & _).
  fold w' in Hsame, Hverb, Hitem, Hinput, Hmuted.
  specialize (Hsame "").
  repeat (split;
          [ first [ exact (f_equal sceneCache Hsame)
                  | exact (f_equal imageUrl Hsame)
                  | exact (f_equal hotspots Hsame)
                  | exact (f_equal inventory Hsame)
                  | exact (f_equal history Hsame)
                  | exact (f_equal currentSceneId Hsame)
                  | exact (f_equal isLoading Hsame)
                  | exact (f_equal gameOver Hsame)
                  | exact (f_equal isPlaying Hsame)
                  | exact (f_equal theme Hsame)
                  | assumption ] |]).
  assumption.
Qed.

(** X8.  [handleVisualUpdate] writes nothing but the loading message: the
    scene cache, the displayed image and hotspots, the inventory, the
    log, the flags, the selection and the mute switch are as it found
    them.  Committing what it returns is left to its caller. *)
Theorem handleVisualUpdate_frame (remote : Remote) (gs : GameState)
    (sceneId visualDesc : string) (triggerUpdate : bool)
    (items : list string) (w : World) :
  let w' := snd (handleVisualUpdate remote gs sceneId visualDesc
                   triggerUpdate items w) in
  sceneCache (gameState w') = sceneCache (gameState w)
  /\ imageUrl (gameState w') = imageUrl (gameState w)
  /\ hotspots (gameState w') = hotspots (gameState w)
  /\ inventory (gameState w') = inventory (gameState w)
  /\ history (gameState w') = history (gameState w)
  /\ currentSceneId (gameState w') = currentSceneId (gameState w)
  /\ isLoading (gameState w') = isLoading (gameState w)
  /\ gameOver (gameState w') = gameOver (gameState w)
  /\ isPlaying (gameState w') = isPlaying (gameState w)
  /\ theme (gameState w') = theme (gameState w)
  /\ selectedVerb w' = selectedVerb w
  /\ selectedItem w' = selectedItem w
  /\ customInput w' = customInput w
  /\ isMuted w' = isMuted w.
Proof. apply handleVisualUpdate_untouched. Qed.

(** ** App.tsx: a whole turn *)

(** X9.  A turn that passes the guard appends the command (prefixed with
    "> ") to the log and then, unless the turn throws while it resolves
    its visuals, the narration: two entries, or the command alone on a
    turn that throws.  The entries already there are untouched. *)
Theorem executeCommand_log (remote : Remote) (gs : GameState)
    (fullCommand : string) (w : World) :
  isLoading gs = false -> gameOver gs = false -> gameState w = gs ->
  let response := turnResponse remote gs fullCommand in
  let final := gameState (snd (executeCommand remote gs fullCommand w)) in
  history final
  = history (gameState w)
      ++ {| type := command; text := "> " +:+ fullCommand |}
         :: (if throws gs response then []
             else [ {| type := narrator; text := narrative response |} ])
  /\ length (history final)
     = (length (history (gameState w))
        + (if throws gs response then 1 else 2))%nat.
Proof.
  intros Hloading Hover Hw response final. unfold final.
  destruct (throws gs response) eqn:Hthrows.
  - rewrite (executeCommand_aborted remote gs fullCommand w Hloading Hover
               Hthrows).
    simpl. rewrite Hw. split; [reflexivity |].
    rewrite length_app. reflexivity.
  - destruct (executeCommand_committed remote gs fullCommand w Hloading Hover
                Hthrows) as (newImage & newHotspots & _ & ->).
    simpl. rewrite Hw, <- List.app_assoc. simpl. split; [reflexivity |].
    rewrite length_app. reflexivity.
Qed.

Lemma executeCommand_log_witness :
  length
    (history
       (gameState
          (snd (executeCommand unreachable atLighthouse "Look at key"
                  (render atLighthouse false)))))
  = 3%nat
  /\ length
       (history
          (gameState
             (snd (executeCommand (scripted (Parsed wander) MediaRejected
                                     Rejected)
                     atLighthouse "Walk away" (render atLighthouse false)))))
     = 2%nat.
Proof.
  split.
  - apply (executeCommand_log unreachable atLighthouse "Look at key"
             (render atLighthouse false) eq_refl eq_refl eq_refl).
  - apply (executeCommand_log (scripted (Parsed wander) MediaRejected Rejected)
             atLighthouse "Walk away" (render atLighthouse false)
             eq_refl eq_refl eq_refl).
Defined.

(** X10.  The requests of a turn that passes the guard, in order: first
    one narrative request, carrying the command, the context of the log
    as it was before the command, and the inventory and scene id as they
    were before the turn; then at most one image request and, only after
    it, at most one detection request; last one speech request for the
    narration, unless the sound is muted or the turn throws.  A turn that
    throws sends the narrative request and nothing else. *)
Theorem executeCommand_requests (remote : Remote) (gs : GameState)
    (fullCommand : string) (w : World) :
  isLoading gs = false -> gameOver gs = false ->
  let response := turnResponse remote gs fullCommand in
  let final := snd (executeCommand remote gs fullCommand w) in
  exists mid,
    trace final
    = trace w
        ++ ActionRequest fullCommand (historyContext (history gs))
             (inventory gs) (currentSceneId gs)
           :: mid
        ++ (if isMuted w || throws gs response then []
            else [SpeechRequest (narrative response)])
    /\ count is_narrative_request mid = 0%nat
    /\ count is_speech_request mid = 0%nat
    /\ (count is_hotspot_request mid <= count is_image_request mid)%nat
    /\ (count is_image_request mid <= 1)%nat
    /\ (throws gs response = true ->
        mid = [VisualUpdateEntered (scene_id response) false]).
Proof.
  intros Hloading Hover response final. unfold final.
  destruct (throws gs response) eqn:Hthrows.
  - rewrite (executeCommand_aborted remote gs fullCommand w Hloading Hover
               Hthrows).
    fold response. exists [VisualUpdateEntered (scene_id response) false].
    rewrite orb_true_r. simpl. rewrite <- List.app_assoc.
    cbv [count]. simpl. repeat split; lia.
  - destruct (executeCommand_committed remote gs fullCommand w Hloading Hover
                Hthrows) as (newImage & newHotspots & _ & ->).
    fold response. simpl.
    destruct (resolveVisuals_shape remote gs response
                (awaitingVisuals gs fullCommand w))
      as (mid & Htrace & Hn & Hs & Hh & Hi & _).
    simpl in Htrace. exists mid. rewrite Htrace, <- !List.app_assoc. simpl.
    rewrite orb_false_r. repeat split; auto. discriminate.
Qed.

Lemma executeCommand_requests_witness :
  exists mid,
    trace (snd (executeCommand
                  (scripted (Parsed climb) (InlineData "image/png" "BBBB")
                     (detection [lampEntry]))
                  atLighthouse "Walk to stairs" (render atLighthouse true)))
    = [] ++ ActionRequest "Walk to stairs" "You arrive." []
              (Some "lighthouse_base") :: mid ++ []
    /\ (count is_image_request mid <= 1)%nat.
Proof.
  destruct (executeCommand_requests
              (scripted (Parsed climb) (InlineData "image/png" "BBBB")
                 (detection [lampEntry]))
              atLighthouse "Walk to stairs" (render atLighthouse true)
              eq_refl eq_refl)
    as (mid & Htrace & _ & _ & _ & Himage & _).
  exists mid. split; [exact Htrace | exact Himage].
Defined.

(** X11.  A turn never clears the displayed image: after a turn that
    passes the guard the image is the one displayed before or a newly
    resolved non-empty one, so a scene once shown stays shown. *)
Theorem executeCommand_keeps_image (remote : Remote) (gs : GameState)
    (fullCommand : string) (w : World) :
  isLoading gs = false -> gameOver gs = false -> gameState w = gs ->
  let final := gameState (snd (executeCommand remote gs fullCommand w)) in
  (imageUrl final = imageUrl (gameState w)
   \/ truthy_str (imageUrl final) = true)
  /\ (truthy_str (imageUrl (gameState w)) = true ->
      truthy_str (imageUrl final) = true).
Proof.
  intros Hloading Hover Hw final.
  assert (Himage : imageUrl final = imageUrl (gameState w)
                   \/ truthy_str (imageUrl final) = true).
  { unfold final.
    destruct (throws gs (turnResponse remote gs fullCommand)) eqn:Hthrows.
    - rewrite (executeCommand_aborted remote gs fullCommand w Hloading Hover
                 Hthrows).
      now left.
    - destruct (executeCommand_committed remote gs fullCommand w Hloading
                  Hover Hthrows) as (newImage & newHotspots & Hres & ->).
      simpl. rewrite Hw.
      eapply resolveVisuals_image, Hres. }
  split; [exact Himage |].
  intros Hshown. destruct Himage as [-> | Htruthy]; assumption.
Qed.

Lemma executeCommand_keeps_image_witness :
  truthy_str
    (imageUrl
       (gameState
          (snd (executeCommand (scripted (Parsed climb) MediaRejected Rejected)
                  atLighthouse "Walk to stairs" (render atLighthouse false)))))
  = true.
Proof.
  apply (executeCommand_keeps_image
           (scripted (Parsed climb) MediaRejected Rejected)
           atLighthouse "Walk to stairs" (render atLighthouse false)
           eq_refl eq_refl eq_refl).
  reflexivity.
Defined.

(** X12.  After a turn that passes the guard and does not throw, whenever
    an image is displayed a lookup in the cache under the current scene
    id finds an artifact that holds exactly the displayed image and the
    displayed hotspots, under the matching id. *)
Theorem executeCommand_cache_mirrors (remote : Remote) (gs : GameState)
    (fullCommand : string) (w : World) :
  isLoading gs = false -> gameOver gs = false ->
  throws gs (turnResponse remote gs fullCommand) = false ->
  let final := gameState (snd (executeCommand remote gs fullCommand w)) in
  forall sceneId img,
    currentSceneId final = Some sceneId ->
    imageUrl final = Some img -> img <> "" ->
    exists cached,
      SceneCache.get (sceneCache final) sceneId = SceneCache.Artifact cached
      /\ sd_id cached = sceneId
      /\ sd_imageUrl cached = img
      /\ sd_hotspots cached = hotspots final.
Proof.
  intros Hloading Hover Hthrows final. unfold final.
  destruct (executeCommand_committed remote gs fullCommand w Hloading Hover
              Hthrows) as (newImage & newHotspots & _ & ->).
  simpl. intros sceneId img [= <-] -> Himg.
  unfold nextCache. simpl.
  apply String.eqb_neq in Himg. rewrite Himg. simpl.
  eexists. split; [apply get_set_eq |]. simpl. auto.
Qed.

Lemma executeCommand_cache_mirrors_witness :
  exists cached,
    SceneCache.get
      (sceneCache
         (gameState
            (snd (executeCommand
                    (scripted (Parsed climb) (InlineData "image/png" "BBBB")
                       (detection [keyEntry; lampEntry]))
                    atLighthouse "Walk to stairs"
                    (render atLighthouse false)))))
      "lighthouse_top" = SceneCache.Artifact cached
    /\ sd_imageUrl cached = "data:image/png;base64,BBBB"
    /\ sd_hotspots cached = [keyEntry].
Proof.
  destruct (executeCommand_cache_mirrors
              (scripted (Parsed climb) (InlineData "image/png" "BBBB")
                 (detection [keyEntry; lampEntry]))
              atLighthouse "Walk to stairs" (render atLighthouse false)
              eq_refl eq_refl eq_refl "lighthouse_top"
              "data:image/png;base64,BBBB")
    as (cached & Hlookup & _ & Himage & Hhotspots).
  - reflexivity.
  - reflexivity.
  - discriminate.
  - exists cached. auto.
Defined.

(** X13.  A turn never removes an entry from the cache: every scene id
    with an entry before a turn that passes the guard has one after it,
    and the only id that can gain one is the scene id of the response, so
    the cache grows by at most one entry per turn.  After a turn that
    does not throw, with a scene id other than "__proto__", the ids with
    an entry are exactly those from before, together with the scene id of
    the response when an image is displayed. *)
Theorem executeCommand_cache_grows (remote : Remote) (gs : GameState)
    (fullCommand : string) (w : World) :
  isLoading gs = false -> gameOver gs = false -> gameState w = gs ->
  let response := turnResponse remote gs fullCommand in
  let final := gameState (snd (executeCommand remote gs fullCommand w)) in
  let before := SceneCache.entries (sceneCache (gameState w)) in
  let after := SceneCache.entries (sceneCache final) in
  (forall k, is_Some (before !! k) -> is_Some (after !! k))
  /\ (forall k, is_Some (after !! k) ->
        is_Some (before !! k) \/ k = scene_id response)
  /\ (size after <= S (size before))%nat
  /\ (throws gs response = false -> scene_id response <> "__proto__" ->
      dom after
      = dom before
          ∪ (if truthy_str (imageUrl final) then {[ scene_id response ]}
             else ∅)).
Proof.
  intros Hloading Hover Hw response final before after.
  pose proof (executeCommand_cache_formula remote gs fullCommand w
                Hloading Hover Hw) as Hformula.
  fold response final in Hformula. simpl in Hformula.
  unfold before, after. rewrite Hw.
  destruct (throws gs response).
  { destruct Hformula as (-> & _). repeat split; auto. discriminate. }
  destruct Hformula as (_ & ->). unfold nextCache.
  destruct (truthy_str (imageUrl final)).
  2: { simpl. repeat split; auto. intros _ _. set_solver. }
  destruct (set_entries_cases (SceneCache.spread (sceneCache gs))
              (scene_id response)
              (artifact response (or_default (imageUrl final) "")
                 (hotspots final)))
    as [-> | (Hproto & _ & ->)]; simpl.
  - repeat split.
    + intros k Hk.
      destruct (decide (k = scene_id response)) as [-> | Hne].
      * rewrite lookup_insert_eq. eauto.
      * rewrite lookup_insert_ne by congruence. exact Hk.
    + intros k Hk.
      destruct (decide (k = scene_id response)) as [-> | Hne]; [now right |].
      rewrite lookup_insert_ne in Hk by congruence. now left.
    + destruct (SceneCache.entries (sceneCache gs) !! scene_id response)
        eqn:Hin.
      * rewrite map_size_insert_Some by eauto. lia.
      * rewrite map_size_insert_None by exact Hin. lia.
    + intros _ _. rewrite dom_insert_L. set_solver.
  - repeat split; auto. intros _ Hid. contradiction.
Qed.

Lemma executeCommand_cache_grows_witness :
  is_Some
    (SceneCache.entries
       (sceneCache
          (gameState
             (snd (executeCommand
                     (scripted (Parsed climb) (InlineData "image/png" "BBBB")
                        (detection [lampEntry]))
                     atLighthouse "Walk to stairs"
                     (render atLighthouse false)))))
       !! "lighthouse_base").
Proof.
  apply (executeCommand_cache_grows
           (scripted (Parsed climb) (InlineData "image/png" "BBBB")
              (detection [lampEntry]))
           atLighthouse "Walk to stairs" (render atLighthouse false)
           eq_refl eq_refl eq_refl).
  simpl. eauto.
Defined.

(** X14.  After a turn that does not throw, the game is over exactly when
    the response says so (an absent flag counts as false); a turn that
    throws leaves the flag as it was.  Once the response has said so,
    every further command, whatever the remote model would answer,
    changes nothing and sends nothing. *)
Theorem executeCommand_game_over (remote : Remote) (gs : GameState)
    (fullCommand : string) (w : World) :
  isLoading gs = false -> gameOver gs = false ->
  let response := turnResponse remote gs fullCommand in
  let final := gameState (snd (executeCommand remote gs fullCommand w)) in
  (throws gs response = false ->
   (gameOver final = true <-> is_game_over response = Some true))
  /\ (throws gs response = true -> gameOver final = gameOver (gameState w))
  /\ (is_game_over response = Some true ->
      forall remote' fullCommand' w',
        executeCommand remote' final fullCommand' w' = (tt, w')).
Proof.
  intros Hloading Hover response final.
  assert (Hfinal :
    if throws gs response
    then gameOver final = gameOver (gameState w) /\ isLoading final = true
    else gameOver final
         = match is_game_over response with
           | Some b => b
           | None => false
           end).
  { unfold final. destruct (throws gs response) eqn:Hthrows.
    - rewrite (executeCommand_aborted remote gs fullCommand w Hloading Hover
                 Hthrows).
      auto.
    - destruct (executeCommand_committed remote gs fullCommand w Hloading
                  Hover Hthrows) as (newImage & newHotspots & _ & ->).
      reflexivity. }
  split; [| split].
  - intros Hthrows. rewrite Hthrows in Hfinal. rewrite Hfinal.
    destruct (is_game_over response) as [[|] |]; split; congruence.
  - intros Hthrows. rewrite Hthrows in Hfinal. apply Hfinal.
  - intros Hflag remote' fullCommand' w'. unfold executeCommand at 1.
    destruct (throws gs response).
    + destruct Hfinal as (_ & ->). reflexivity.
    + rewrite Hfinal, Hflag, orb_true_r. reflexivity.
Qed.

Lemma executeCommand_game_over_witness :
  executeCommand unreachable
    (gameState
       (snd (executeCommand
               (scripted
                  (Parsed {| narrative := "You fall.";
                             scene_id := "lighthouse_base";
                             visual_description := "the same lighthouse";
                             trigger_visual_update := false;
                             interactables := [];
                             inventory_add := None;
                             inventory_remove := None;
                             is_game_over := Some true |})
                  MediaRejected Rejected)
               atLighthouse "Jump" (render atLighthouse false))))
    "Look at key" (render atLighthouse false)
  = (tt, render atLighthouse false).
Proof.
  apply (executeCommand_game_over
           (scripted
              (Parsed {| narrative := "You fall.";
                         scene_id := "lighthouse_base";
                         visual_description := "the same lighthouse";
                         trigger_visual_update := false;
                         interactables := [];
                         inventory_add := None;
                         inventory_remove := None;
                         is_game_over := Some true |})
              MediaRejected Rejected)
           atLighthouse "Jump" (render atLighthouse false) eq_refl eq_refl).
  reflexivity.
Defined.

Lemma executeCommand_blocked (remote : Remote) (gs : GameState)
    (fullCommand : string) (w : World) :
  isLoading gs || gameOver gs = true ->
  executeCommand remote gs fullCommand w = (tt, w).
Proof. intros H. unfold executeCommand. rewrite H. reflexivity. Qed.

(** X15.  A turn that throws while it resolves its visuals is left in
    flight for good.  [isLoading] stays true under the message
    "Thinking...", the log ends with the command, the narrative request
    and the entry into the policy are all that happened, and nothing of
    the response is committed: scene, inventory, image, hotspots, cache
    and selection are as before.  From a render of that state every
    command, scene click and submitted input line is ignored, whatever
    the remote model would answer. *)
Theorem executeCommand_in_flight (remote : Remote) (gs : GameState)
    (fullCommand : string) (w : World) :
  isLoading gs = false -> gameOver gs = false ->
  let response := turnResponse remote gs fullCommand in
  let final := snd (executeCommand remote gs fullCommand w) in
  throws gs response = true ->
  isLoading (gameState final) = true
  /\ loadingMessage (gameState final) = "Thinking..."
  /\ history (gameState final)
     = history gs ++ [ {| type := command; text := "> " +:+ fullCommand |} ]
  /\ trace final
     = trace w
         ++ [ActionRequest fullCommand (historyContext (history gs))
               (inventory gs) (currentSceneId gs);
             VisualUpdateEntered (scene_id response) false]
  /\ currentSceneId (gameState final) = currentSceneId (gameState w)
  /\ inventory (gameState final) = inventory (gameState w)
  /\ imageUrl (gameState final) = imageUrl (gameState w)
  /\ hotspots (gameState final) = hotspots (gameState w)
  /\ sceneCache (gameState final) = sceneCache (gameState w)
  /\ gameOver (gameState final) = gameOver (gameState w)
  /\ selectedVerb final = selectedVerb w
  /\ selectedItem final = selectedItem w
  /\ customInput final = customInput w
  /\ forall remote' trim fullCommand' verb selected target input w',
       executeCommand remote' (gameState final) fullCommand' w' = (tt, w')
       /\ handleSceneClick remote' (gameState final) verb selected target w'
          = (tt, w')
       /\ handleCustomCommandSubmit remote' trim (gameState final) input w'
          = (tt, w').
Proof.
  intros Hloading Hover response final Hthrows. unfold final.
  rewrite (executeCommand_aborted remote gs fullCommand w Hloading Hover
             Hthrows).
  fold response. simpl.
  do 13 (split; [first [reflexivity | trace_eq] |]).
  intros remote' trim fullCommand' verb selected target input w'.
  split; [reflexivity |]. split; [reflexivity |].
  unfold handleCustomCommandSubmit.
  destruct (negb (String.eqb (trim input) "")); reflexivity.
Qed.

Lemma executeCommand_in_flight_witness :
  isLoading
    (gameState
       (snd (executeCommand
               (scripted (Parsed wander) (InlineData "image/png" "BBBB")
                  (detection [keyEntry]))
               atLighthouse "Walk away" (render atLighthouse false))))
  = true
  /\ trace
       (snd (executeCommand
               (scripted (Parsed wander) (InlineData "image/png" "BBBB")
                  (detection [keyEntry]))
               atLighthouse "Walk away" (render atLighthouse false)))
     = [] ++ [ActionRequest "Walk away" "You arrive." []
                (Some "lighthouse_base");
              VisualUpdateEntered "constructor" false].
Proof.
  destruct (executeCommand_in_flight
              (scripted (Parsed wander) (InlineData "image/png" "BBBB")
                 (detection [keyEntry]))
              atLighthouse "Walk away" (render atLighthouse false)
              eq_refl eq_refl eq_refl)
    as (Hflight & _ & _ & Htrace & _).
  split; [exact Hflight | exact Htrace].
Defined.

(** X16.  A turn whose narrative call fails, in a game that has a current
    scene, is a turn of text only: besides the narrative request and the
    speech request for the apology nothing is sent, and the image, the
    hotspots, the inventory and the scene id stay as they were; the game
    is not over. *)
Theorem executeCommand_failed_narrative (remote : Remote) (gs : GameState)
    (fullCommand : string) (w : World) (sceneId : string) :
  isLoading gs = false -> gameOver gs = false -> gameState w = gs ->
  currentSceneId gs = Some sceneId -> sceneId <> "" ->
  failed (action_reply remote fullCommand (historyContext (history gs))
            (inventory gs) (currentSceneId gs)) ->
  let final := snd (executeCommand remote gs fullCommand w) in
  trace final
  = trace w
      ++ ActionRequest fullCommand (historyContext (history gs))
           (inventory gs) (currentSceneId gs)
         :: (if isMuted w then []
             else [SpeechRequest "I didn't quite get that."])
  /\ imageUrl (gameState final) = imageUrl (gameState w)
  /\ hotspots (gameState final) = hotspots (gameState w)
  /\ inventory (gameState final) = inventory (gameState w)
  /\ currentSceneId (gameState final) = currentSceneId (gameState w)
  /\ gameOver (gameState final) = false.
Proof.
  intros Hloading Hover Hw Hscene Hne Hfailed final. unfold final.
  rewrite (executeCommand_world remote gs fullCommand w Hloading Hover).
  assert (Hresponse : turnResponse remote gs fullCommand
                      = action_fallback (currentSceneId gs))
    by (apply catch_failed, Hfailed).
  rewrite Hresponse.
  assert (Hid : scene_id (action_fallback (currentSceneId gs)) = sceneId).
  { rewrite Hscene. simpl. apply String.eqb_neq in Hne. rewrite Hne.
    reflexivity. }
  assert (Hneeds : needsUpdate gs (action_fallback (currentSceneId gs)) = false).
  { unfold needsUpdate. rewrite Hid, Hscene. simpl.
    rewrite bool_decide_eq_true_2 by reflexivity. reflexivity. }
  unfold resolveVisuals. rewrite Hneeds. simpl.
  rewrite Hw, Hscene. simpl. apply String.eqb_neq in Hne. rewrite Hne.
  rewrite <- List.app_assoc. simpl. repeat split; reflexivity.
Qed.

Lemma executeCommand_failed_narrative_witness :
  hotspots
    (gameState
       (snd (executeCommand unreachable atLighthouse "Look at key"
               (render atLighthouse false))))
  = hotspots (gameState (render atLighthouse false)).
Proof.
  apply (executeCommand_failed_narrative unreachable atLighthouse
           "Look at key" (render atLighthouse false) "lighthouse_base"
           eq_refl eq_refl eq_refl eq_refl).
  - discriminate.
  - exact I.
Defined.

(** X17.  A turn that passes the guard leaves alone the mute switch, the
    theme and the playing flag.  Unless it throws, it clears the selected
    verb, the selected item and the input line, and ends with [isLoading]
    false and the scene id of the response as the current scene; a turn
    that throws keeps the selection, the input line and the current
    scene, and ends with [isLoading] true. *)
Theorem executeCommand_housekeeping (remote : Remote) (gs : GameState)
    (fullCommand : string) (w : World) :
  isLoading gs = false -> gameOver gs = false ->
  let response := turnResponse remote gs fullCommand in
  let final := snd (executeCommand remote gs fullCommand w) in
  isMuted final = isMuted w
  /\ theme (gameState final) = theme (gameState w)
  /\ isPlaying (gameState final) = isPlaying (gameState w)
  /\ if throws gs response
     then selectedVerb final = selectedVerb w
          /\ selectedItem final = selectedItem w
          /\ customInput final = customInput w
          /\ isLoading (gameState final) = true
          /\ currentSceneId (gameState final) = currentSceneId (gameState w)
     else selectedVerb final = None
          /\ selectedItem final = None
          /\ customInput final = ""
          /\ isLoading (gameState final) = false
          /\ currentSceneId (gameState final) = Some (scene_id response).
Proof.
  intros Hloading Hover response final. unfold final.
  destruct (throws gs response) eqn:Hthrows.
  - rewrite (executeCommand_aborted remote gs fullCommand w Hloading Hover
               Hthrows).
    simpl. repeat split; reflexivity.
  - destruct (executeCommand_committed remote gs fullCommand w Hloading Hover
                Hthrows) as (newImage & newHotspots & _ & ->).
    simpl. repeat split; reflexivity.
Qed.

Lemma executeCommand_housekeeping_witness :
  selectedVerb
    (snd (executeCommand unreachable atLighthouse "Look at key"
            {| gameState := atLighthouse;
               selectedVerb := Some Verb.LookAt;
               selectedItem := None;
               customInput := "";
               isMuted := false;
               audioContext := true;
               trace := [] |}))
  = None
  /\ selectedVerb
       (snd (executeCommand (scripted (Parsed wander) MediaRejected Rejected)
               atLighthouse "Walk to"
               {| gameState := atLighthouse;
                  selectedVerb := Some Verb.WalkTo;
                  selectedItem := None;
                  customInput := "";
                  isMuted := false;
                  audioContext := true;
                  trace := [] |}))
     = Some Verb.WalkTo.
Proof.
  split.
  - apply (executeCommand_housekeeping unreachable atLighthouse "Look at key"
             {| gameState := atLighthouse;
                selectedVerb := Some Verb.LookAt;
                selectedItem := None;
                customInput := "";
                isMuted := false;
                audioContext := true;
                trace := [] |} eq_refl eq_refl).
  - apply (executeCommand_housekeeping
             (scripted (Parsed wander) MediaRejected Rejected)
             atLighthouse "Walk to"
             {| gameState := atLighthouse;
                selectedVerb := Some Verb.WalkTo;
                selectedItem := None;
                customInput := "";
                isMuted := false;
                audioContext := true;
                trace := [] |} eq_refl eq_refl).
Defined.

(** ** App.tsx: the start of a game *)

(** X18.  Starting a game sends the start request, then always an image
    request for the scene of the response, whatever the cache holds, then
    a detection request exactly if the image arrived and there are
    interactables, run on that image, and last the speech request unless
    muted.  It sets the playing flag and the theme, ends with [isLoading]
    false, displays the image that arrived, and replaces the log by the
    single opening narration. *)
Theorem handleStartGame_requests (remote : Remote) (gs : GameState)
    (themeInput : string) (w : World) :
  let response := startResponse remote themeInput in
  let final := snd (handleStartGame remote gs themeInput w) in
  (exists rest,
      trace final
      = trace w
          ++ [StartRequest themeInput;
              VisualUpdateEntered (scene_id response) true;
              ImageRequest (visual_description response)]
          ++ rest
          ++ (if isMuted w then [] else [SpeechRequest (narrative response)])
      /\ (no_image (image_reply remote (visual_description response)) ->
          rest = [] /\ imageUrl (gameState final) = None)
      /\ (interactables response = [] -> rest = [])
      /\ (forall mimeType data,
            image_reply remote (visual_description response)
            = InlineData mimeType data ->
            imageUrl (gameState final)
            = Some ("data:" +:+ mimeType +:+ ";base64," +:+ data)
            /\ (interactables response <> [] ->
                rest = [HotspotRequest
                          ("data:" +:+ mimeType +:+ ";base64," +:+ data)
                          (interactables response)])))
  /\ isPlaying (gameState final) = true
  /\ theme (gameState final) = themeInput
  /\ isLoading (gameState final) = false
  /\ currentSceneId (gameState final) = Some (scene_id response)
  /\ history (gameState final)
     = [ {| type := narrator; text := narrative response |} ].
Proof.
  intros response final. unfold final.
  rewrite (handleStartGame_world remote gs themeInput w). fold response.
  simpl. split; [| repeat split; reflexivity].
  exists (detectionRequests remote (visual_description response)
            (interactables response)).
  split; [reflexivity |].
  unfold detectionRequests, generatedImage.
  split; [| split].
  - intros Hfail. rewrite (image_try_failed _ Hfail). auto.
  - intros ->. destruct (catch _ _); reflexivity.
  - intros mimeType data ->. simpl. split; [reflexivity |].
    intros Hitems. destruct (interactables response); [contradiction |].
    reflexivity.
Qed.

Lemma handleStartGame_requests_witness :
  trace (snd (handleStartGame studio INITIAL_STATE "haunted lighthouse"
                (render INITIAL_STATE true)))
  = [] ++ [StartRequest "haunted lighthouse";
           VisualUpdateEntered "lighthouse_base" true;
           ImageRequest "a lighthouse at dusk"]
       ++ [HotspotRequest pngImage ["lantern"]] ++ [].
Proof.
  destruct (handleStartGame_requests studio INITIAL_STATE "haunted lighthouse"
              (render INITIAL_STATE true))
    as ((rest & Htrace & _ & _ & Harrived) & _).
  destruct (Harrived "image/png" "AAAA" eq_refl) as (_ & Hrest).
  rewrite Htrace, Hrest by discriminate. reflexivity.
Defined.

(** ** The states a game goes through *)

Section Committed.

(** An invariant of the states a game goes through: it holds after a
    start, and a turn that passes the guard re-establishes it. *)
Lemma committed_invariant (P : GameState -> Prop) :
  (forall remote themeInput muted,
      P (gameState (snd (handleStartGame remote INITIAL_STATE themeInput
                           (render INITIAL_STATE muted))))) ->
  (forall remote gs fullCommand muted,
      committed gs -> P gs ->
      isLoading gs = false -> gameOver gs = false ->
      P (gameState (snd (executeCommand remote gs fullCommand
                           (render gs muted))))) ->
  forall gs, committed gs -> P gs.
Proof.
  intros Hstart Hturn gs Hcommitted.
  induction Hcommitted as [remote themeInput muted
                          | remote gs fullCommand muted Hgs IH].
  - apply Hstart.
  - destruct (isLoading gs || gameOver gs) eqn:Hguard.
    + rewrite executeCommand_blocked by exact Hguard. exact IH.
    + apply orb_false_iff in Hguard. destruct Hguard as (Hloading & Hover).
      apply Hturn; assumption.
Qed.

Lemma turns_snoc (n : nat) :
  turns n ++ [command; narrator] = turns (S n).
Proof.
  induction n as [| n IH]; [reflexivity |].
  simpl. simpl in IH. rewrite IH. reflexivity.
Qed.

Lemma cache_all_get (Q : string -> SceneData -> Prop) (c : SceneCache.t) :
  cache_all Q c ->
  forall k a, SceneCache.get c k = SceneCache.Artifact a -> Q k a.
Proof.
  intros (Hentries & Hproto) k a Hget.
  apply get_artifact in Hget.
  destruct Hget as [Hown | (-> & _ & Hp)]; auto.
Qed.

Lemma cache_all_literal (Q : string -> SceneData -> Prop) (k : string)
    (a : SceneData) :
  Q k a -> cache_all Q (SceneCache.literal k a).
Proof.
  intros HQ. split; simpl; [| discriminate].
  intros k' a' Hlookup.
  apply lookup_singleton_Some in Hlookup. destruct Hlookup as (<- & <-).
  exact HQ.
Qed.

(** The cache a turn commits holds what the cache before held, and the
    artifact of the response. *)
Lemma cache_all_nextCache (Q : string -> SceneData -> Prop)
    (cache : SceneCache.t) (response : AdventureResponse)
    (image : option string) (found : list Hotspot) :
  cache_all Q cache ->
  (truthy_str image = true ->
   Q (scene_id response) (artifact response (or_default image "") found)) ->
  cache_all Q (nextCache cache response image found).
Proof.
  intros (Hentries & _) HQ. unfold nextCache.
  destruct (truthy_str image); [| split; [exact Hentries | discriminate]].
  specialize (HQ eq_refl).
  destruct (set_entries_cases (SceneCache.spread cache) (scene_id response)
              (artifact response (or_default image "") found))
    as [Hset | (Hproto & _ & ->)].
  - split.
    + rewrite Hset. intros k a.
      destruct (decide (k = scene_id response)) as [-> | Hk].
      * rewrite lookup_insert_eq. intros [= <-]. exact HQ.
      * rewrite lookup_insert_ne by congruence. apply Hentries.
    + unfold SceneCache.set.
      destruct (SceneCache.entries (SceneCache.spread cache)
                  !! scene_id response) eqn:Hown; simpl; [discriminate |].
      destruct (String.eqb_spec (scene_id response) "__proto__") as [Heq | Hne];
        simpl; [| discriminate].
      intros a [= <-]. rewrite <- Heq. exact HQ.
  - split; simpl; [exact Hentries |].
    intros a [= <-]. rewrite <- Hproto. exact HQ.
Qed.

End Committed.

(** X19.  In every state a game goes through from its start on, the game
    is playing, there is a current scene, and the log is the opening
    narration followed by a command and a narration for each turn
    committed, and then by the command alone when a turn was left in
    flight; it never holds an entry of type [error]. *)
Theorem committed_lifecycle (gs : GameState) :
  committed gs ->
  isPlaying gs = true
  /\ is_Some (currentSceneId gs)
  /\ exists n,
       map type (history gs)
       = narrator :: turns n ++ (if isLoading gs then [command] else []).
Proof.
  revert gs. apply committed_invariant.
  - intros remote themeInput muted.
    rewrite (handleStartGame_world remote INITIAL_STATE themeInput
               (render INITIAL_STATE muted)).
    simpl. repeat split; eauto. exists 0%nat. reflexivity.
  - intros remote gs fullCommand muted _ (Hplaying & Hscene & n & Hlog)
      Hloading Hover.
    rewrite Hloading, List.app_nil_r in Hlog.
    destruct (throws gs (turnResponse remote gs fullCommand)) eqn:Hthrows.
    + rewrite (executeCommand_aborted remote gs fullCommand (render gs muted)
                 Hloading Hover Hthrows).
      simpl. repeat split; auto. exists n.
      rewrite map_app, Hlog. reflexivity.
    + destruct (executeCommand_committed remote gs fullCommand
                  (render gs muted) Hloading Hover Hthrows)
        as (newImage & newHotspots & _ & ->).
      simpl. repeat split; eauto. exists (S n).
      rewrite !map_app, Hlog. simpl. rewrite <- List.app_assoc. simpl.
      rewrite turns_snoc, List.app_nil_r. reflexivity.
Qed.

Lemma committed_lifecycle_witness :
  exists n,
    map type
      (history
         (gameState
            (snd (executeCommand (scripted (Parsed wander) MediaRejected
                                    Rejected)
                    (gameState
                       (snd (executeCommand
                               (scripted (Parsed takeKey) MediaRejected
                                  Rejected)
                               started "Pick up key" (render started false))))
                    "Walk away"
                    (render
                       (gameState
                          (snd (executeCommand
                                  (scripted (Parsed takeKey) MediaRejected
                                     Rejected)
                                  started "Pick up key"
                                  (render started false))))
                       false)))))
    = narrator :: turns n ++ [command].
Proof.
  apply (committed_lifecycle
           (gameState
              (snd (executeCommand (scripted (Parsed wander) MediaRejected
                                      Rejected)
                      (gameState
                         (snd (executeCommand
                                 (scripted (Parsed takeKey) MediaRejected
                                    Rejected)
                                 started "Pick up key"
                                 (render started false))))
                      "Walk away"
                      (render
                         (gameState
                            (snd (executeCommand
                                    (scripted (Parsed takeKey) MediaRejected
                                       Rejected)
                                    started "Pick up key"
                                    (render started false))))
                         false))))).
  apply committed_turn, committed_turn.
  exact (committed_start studio "haunted lighthouse" false).
Defined.

(** X20.  In every state a game goes through the inventory has no
    duplicates and does not hold the empty name. *)
Theorem committed_inventory (gs : GameState) :
  committed gs ->
  List.NoDup (inventory gs) /\ ~ In "" (inventory gs).
Proof.
  revert gs. apply committed_invariant.
  - intros remote themeInput muted.
    rewrite (handleStartGame_world remote INITIAL_STATE themeInput
               (render INITIAL_STATE muted)).
    simpl.
    destruct (inventory_add (startResponse remote themeInput)) as [item |];
      [destruct (String.eqb_spec item "") |]; simpl.
    + split; [constructor | tauto].
    + split; [repeat constructor; intros [] |].
      intros [H | []]. congruence.
    + split; [constructor | tauto].
  - intros remote gs fullCommand muted _ (Hnodup & Hempty) Hloading Hover.
    destruct (throws gs (turnResponse remote gs fullCommand)) eqn:Hthrows.
    + rewrite (executeCommand_aborted remote gs fullCommand (render gs muted)
                 Hloading Hover Hthrows).
      simpl. auto.
    + destruct (executeCommand_committed remote gs fullCommand
                  (render gs muted) Hloading Hover Hthrows)
        as (newImage & newHotspots & _ & ->).
      simpl. split; [apply newInventory_NoDup, Hnodup |].
      rewrite newInventory_In. intros [[H | [_ H]] _]; [tauto | congruence].
Qed.

Lemma committed_inventory_witness :
  inventory
    (gameState
       (snd (executeCommand (scripted (Parsed takeKey) MediaRejected Rejected)
               started "Pick up key" (render started false))))
  = ["lantern"; "key"]
  /\ List.NoDup
       (inventory
          (gameState
             (snd (executeCommand
                     (scripted (Parsed takeKey) MediaRejected Rejected)
                     started "Pick up key" (render started false)))))
  /\ ~ In ""
         (inventory
            (gameState
               (snd (executeCommand
                       (scripted (Parsed takeKey) MediaRejected Rejected)
                       started "Pick up key" (render started false))))).
Proof.
  split; [reflexivity |].
  apply (committed_inventory
           (gameState
              (snd (executeCommand
                      (scripted (Parsed takeKey) MediaRejected Rejected)
                      started "Pick up key" (render started false))))).
  apply committed_turn.
  exact (committed_start studio "haunted lighthouse" false).
Defined.

(** X21.  In every state a game goes through the displayed image is
    either absent or a non-empty string; whenever an image is displayed,
    a lookup in the cache under the current scene id finds an artifact
    that holds that image and the displayed hotspots; and every artifact
    a lookup finds carries the scene id it was looked up under. *)
Theorem committed_visuals (gs : GameState) :
  committed gs ->
  imageUrl gs <> Some ""
  /\ (forall sceneId img,
        currentSceneId gs = Some sceneId -> imageUrl gs = Some img ->
        exists cached,
          SceneCache.get (sceneCache gs) sceneId = SceneCache.Artifact cached
          /\ sd_imageUrl cached = img
          /\ sd_hotspots cached = hotspots gs)
  /\ (forall k cached,
        SceneCache.get (sceneCache gs) k = SceneCache.Artifact cached ->
        sd_id cached = k).
Proof.
  intros Hcommitted.
  assert (Hinv :
    imageUrl gs <> Some ""
    /\ (forall sceneId img,
          currentSceneId gs = Some sceneId -> imageUrl gs = Some img ->
          exists cached,
            SceneCache.get (sceneCache gs) sceneId = SceneCache.Artifact cached
            /\ sd_imageUrl cached = img
            /\ sd_hotspots cached = hotspots gs)
    /\ cache_all (fun k cached => sd_id cached = k) (sceneCache gs)).
  { revert gs Hcommitted. apply committed_invariant.
    - intros remote themeInput muted.
      rewrite (handleStartGame_world remote INITIAL_STATE themeInput
                 (render INITIAL_STATE muted)).
      simpl.
      set (response := startResponse remote themeInput).
      pose proof (generatedImage_truthy remote (visual_description response))
        as Hne.
      split; [exact Hne |]. split.
      + intros sceneId img [= <-] Himage. eexists.
        split; [apply get_entry, lookup_singleton_eq |]. simpl.
        rewrite Himage in *.
        destruct (String.eqb_spec img "") as [-> | Hn]; [congruence |].
        apply String.eqb_neq in Hn. simpl. rewrite Hn. auto.
      + apply cache_all_literal. reflexivity.
    - intros remote gs' fullCommand muted _ (Hne & Hmirror & Hids)
        Hloading Hover.
      destruct (throws gs' (turnResponse remote gs' fullCommand)) eqn:Hthrows.
      + rewrite (executeCommand_aborted remote gs' fullCommand
                   (render gs' muted) Hloading Hover Hthrows).
        simpl. auto.
      + destruct (executeCommand_committed remote gs' fullCommand
                    (render gs' muted) Hloading Hover Hthrows)
          as (newImage & newHotspots & Hres & ->).
        simpl.
        set (response := turnResponse remote gs' fullCommand) in *.
        pose proof (resolveVisuals_image remote gs' response _ _ _ Hres)
          as Himage.
        assert (Hne' : newImage <> Some "").
        { destruct Himage as [-> | Htruthy]; [exact Hne |].
          intros ->. discriminate. }
        split; [exact Hne' |]. split.
        * intros sceneId img [= <-] ->. unfold nextCache. simpl.
          destruct (String.eqb_spec img ""); [congruence |]. simpl.
          eexists. split; [apply get_set_eq |]. auto.
        * apply cache_all_nextCache; [exact Hids | reflexivity]. }
  destruct Hinv as (Hne & Hmirror & Hids).
  split; [exact Hne |]. split; [exact Hmirror |].
  apply (cache_all_get _ _ Hids).
Qed.

Lemma committed_visuals_witness :
  imageUrl started = Some pngImage
  /\ exists cached,
       SceneCache.get (sceneCache started) "lighthouse_base"
       = SceneCache.Artifact cached
       /\ sd_imageUrl cached = pngImage
       /\ sd_hotspots cached = hotspots started.
Proof.
  split; [reflexivity |].
  apply (proj1 (proj2 (committed_visuals started
                         (committed_start studio "haunted lighthouse" false)))
           "lighthouse_base" pngImage); reflexivity.
Defined.
(** ** SceneDisplay.tsx: hotspots under the mouse *)

Section Display.

Import SceneDisplay.

Variable ToNumber : json -> number.

Lemma keepHotspot_drawn (h : json) : keepHotspot h = true -> drawn h = true.
Proof.
  intros Hkept. apply keepHotspot_iff in Hkept.
  destruct Hkept as (props & nm & a & b & c & d & -> & _ & _ & Hbox).
  unfold drawn. simpl. rewrite Hbox. reflexivity.
Qed.

Lemma find_first {A} (f : A -> bool) (l : list A) :
  match List.find f l with
  | Some x =>
      exists before after,
        l = before ++ x :: after
        /\ f x = true
        /\ Forall (fun e => f e = false) before
  | None => Forall (fun e => f e = false) l
  end.
Proof.
  induction l as [| e l IH]; simpl; [constructor |].
  destruct (f e) eqn:He.
  - exists [], l. repeat split; [exact He | constructor].
  - destruct (List.find f l) as [x |].
    + destruct IH as (before & after & -> & Hx & Hbefore).
      exists (e :: before), after. repeat split; [exact Hx |].
      constructor; assumption.
    + constructor; assumption.
Qed.

End Display.

(** X22.  In every state a game goes through all displayed hotspots, and
    those of every artifact a cache lookup finds, passed the filter of
    [detectSceneHotspots]; so each displayed hotspot gets its overlay in
    the scene display, none being skipped by its safety check. *)
Theorem committed_hotspots (gs : GameState) :
  committed gs ->
  Forall (fun h => keepHotspot h = true) (hotspots gs)
  /\ (forall k cached,
        SceneCache.get (sceneCache gs) k = SceneCache.Artifact cached ->
        Forall (fun h => keepHotspot h = true) (sd_hotspots cached))
  /\ Forall (fun h => SceneDisplay.drawn h = true) (hotspots gs).
Proof.
  intros Hcommitted.
  assert (Hkept :
    Forall (fun h => keepHotspot h = true) (hotspots gs)
    /\ cache_all
         (fun _ cached =>
            Forall (fun h => keepHotspot h = true) (sd_hotspots cached))
         (sceneCache gs)).
  { revert gs Hcommitted. apply committed_invariant.
    - intros remote themeInput muted.
      rewrite (handleStartGame_world remote INITIAL_STATE themeInput
                 (render INITIAL_STATE muted)).
      simpl. split; [apply detected_kept |].
      apply cache_all_literal. apply detected_kept.
    - intros remote gs' fullCommand muted _ (Hshown & Hcached) Hloading Hover.
      destruct (throws gs' (turnResponse remote gs' fullCommand)) eqn:Hthrows.
      + rewrite (executeCommand_aborted remote gs' fullCommand
                   (render gs' muted) Hloading Hover Hthrows).
        simpl. auto.
      + destruct (executeCommand_committed remote gs' fullCommand
                    (render gs' muted) Hloading Hover Hthrows)
          as (newImage & newHotspots & Hres & ->).
        simpl.
        pose proof (resolveVisuals_kept remote gs' _ _ _ _ Hshown
                      (cache_all_get _ _ Hcached) Hres) as Hfound.
        split; [exact Hfound |].
        apply cache_all_nextCache; [exact Hcached |].
        intros _. exact Hfound. }
  destruct Hkept as (Hshown & Hcached).
  split; [exact Hshown |]. split; [apply (cache_all_get _ _ Hcached) |].
  eapply List.Forall_impl; [| exact Hshown].
  intros h. apply keepHotspot_drawn.
Qed.

Lemma committed_hotspots_witness :
  hotspots started = [lanternEntry]
  /\ Forall (fun h => keepHotspot h = true) (hotspots started)
  /\ Forall (fun h => SceneDisplay.drawn h = true) (hotspots started).
Proof.
  split; [reflexivity |].
  destruct (committed_hotspots started
              (committed_start studio "haunted lighthouse" false))
    as (Hkept & _ & Hdrawn).
  split; [exact Hkept | exact Hdrawn].
Defined.

(** X23.  For a hotspot whose box is four numbers [ymin, xmin, ymax,
    xmax], a finite mouse position is over the hotspot exactly when it
    lies within the box, borders included; so a box with [ymin > ymax] or
    [xmin > xmax] is never hit.  A position that is not a number is over
    no hotspot at all. *)
Theorem under_box (ToNumber : json -> SceneDisplay.number)
    (props : list (string * json)) (ymin xmin ymax xmax : Z) (x y : Q) :
  own "box" props = Some (box4 ymin xmin ymax xmax) ->
  (SceneDisplay.under ToNumber (SceneDisplay.Finite x) (SceneDisplay.Finite y)
     (JObj props) = true
   <-> (inject_Z ymin <= y /\ y <= inject_Z ymax
        /\ inject_Z xmin <= x /\ x <= inject_Z xmax)%Q)
  /\ (ymax < ymin \/ xmax < xmin ->
      SceneDisplay.under ToNumber (SceneDisplay.Finite x)
        (SceneDisplay.Finite y) (JObj props) = false)
  /\ (forall h other,
        SceneDisplay.under ToNumber SceneDisplay.NaN other h = false
        /\ SceneDisplay.under ToNumber other SceneDisplay.NaN h = false).
Proof.
  intros Hbox.
  assert (Hinside :
    SceneDisplay.under ToNumber (SceneDisplay.Finite x) (SceneDisplay.Finite y)
      (JObj props) = true
    <-> (inject_Z ymin <= y /\ y <= inject_Z ymax
         /\ inject_Z xmin <= x /\ x <= inject_Z xmax)%Q).
  { unfold SceneDisplay.under. simpl. rewrite Hbox. simpl.
    rewrite !andb_true_iff, !Qle_bool_iff. tauto. }
  split; [exact Hinside |]. split.
  - intros Hdegenerate. apply not_true_is_false. intros Hunder.
    apply Hinside in Hunder. destruct Hunder as (Hy1 & Hy2 & Hx1 & Hx2).
    pose proof (Qle_trans _ _ _ Hy1 Hy2) as Hy.
    pose proof (Qle_trans _ _ _ Hx1 Hx2) as Hx.
    rewrite <- Zle_Qle in Hy, Hx. lia.
  - intros h other. unfold SceneDisplay.under, SceneDisplay.le, SceneDisplay.ge.
    split.
    + destruct (truthy h && truthy_u (member h "box")
                && isArray (member h "box")
                && (array_length (member h "box") =? 4)); simpl;
        [| reflexivity].
      destruct (match other with SceneDisplay.NaN => false | _ => _ end);
        simpl; reflexivity.
    + destruct (truthy h && truthy_u (member h "box")
                && isArray (member h "box")
                && (array_length (member h "box") =? 4)); simpl;
        reflexivity.
Qed.

Lemma under_box_witness :
  SceneDisplay.under (fun _ => SceneDisplay.NaN)
    (SceneDisplay.Finite (inject_Z 20)) (SceneDisplay.Finite (inject_Z 10))
    keyEntry = true.
Proof.
  apply (proj1 (under_box (fun _ => SceneDisplay.NaN)
                  [("name", JStr "key"); ("box", box4 10 10 20 20)]
                  10 10 20 20 (inject_Z 20) (inject_Z 10) eq_refl)).
  vm_compute. repeat split; discriminate.
Defined.

(** X24.  The hotspot a click lands on is the first one in display order
    that lies under the mouse, so of overlapping hotspots the earlier
    wins; there is none exactly when no hotspot lies under the mouse.
    When the hotspots all passed the filter, as in every committed state,
    a hotspot that is hit always yields a non-empty target name. *)
Theorem hit_first (ToNumber : json -> SceneDisplay.number)
    (shown : list Hotspot) (x y : SceneDisplay.number) :
  match SceneDisplay.hit ToNumber shown x y with
  | Some h =>
      (exists before after,
          shown = before ++ h :: after
          /\ SceneDisplay.under ToNumber x y h = true
          /\ Forall (fun e => SceneDisplay.under ToNumber x y e = false) before)
      /\ (Forall (fun e => keepHotspot e = true) shown ->
          truthy_u (SceneDisplay.hitName ToNumber shown x y) = true)
  | None =>
      Forall (fun e => SceneDisplay.under ToNumber x y e = false) shown
      /\ SceneDisplay.hitName ToNumber shown x y = None
  end.
Proof.
  unfold SceneDisplay.hitName, SceneDisplay.hit.
  pose proof (find_first (SceneDisplay.under ToNumber x y) shown) as Hfind.
  destruct (List.find (SceneDisplay.under ToNumber x y) shown) as [h |].
  - split; [exact Hfind |].
    intros Hkept. destruct Hfind as (before & after & -> & _).
    apply List.Forall_app in Hkept. destruct Hkept as (_ & Hkept).
    apply List.Forall_cons_iff in Hkept. destruct Hkept as (Hh & _).
    apply keepHotspot_iff in Hh.
    destruct Hh as (props & nm & a & b & c & d & -> & Hname & Hnm & _).
    simpl. rewrite Hname. exact Hnm.
  - split; [exact Hfind | reflexivity].
Qed.

Lemma hit_first_witness :
  truthy_u
    (SceneDisplay.hitName (fun _ => SceneDisplay.NaN) [keyEntry]
       (SceneDisplay.Finite (inject_Z 15)) (SceneDisplay.Finite (inject_Z 15)))
  = true.
Proof.
  pose proof (hit_first (fun _ => SceneDisplay.NaN) [keyEntry]
                (SceneDisplay.Finite (inject_Z 15))
                (SceneDisplay.Finite (inject_Z 15))) as Hhit.
  change (SceneDisplay.hit (fun _ => SceneDisplay.NaN) [keyEntry]
            (SceneDisplay.Finite (inject_Z 15))
            (SceneDisplay.Finite (inject_Z 15)))
    with (Some keyEntry) in Hhit.
  destruct Hhit as (_ & Hname). apply Hname.
  repeat constructor.
Defined.

(** ** App.tsx: the click and submit handlers *)

Section Handlers.

Variable remote : Remote.
Variable trim : string -> string.

Lemma executeCommand_after_initAudio (gs : GameState) (fullCommand : string)
    (w : World) :
  isLoading gs || gameOver gs = false ->
  executeCommand remote gs fullCommand (snd (initAudio w))
  = executeCommand remote gs fullCommand w.
Proof.
  intros Hguard. apply orb_false_iff in Hguard.
  destruct Hguard as (Hloading & Hover).
  assert (Hsnd : snd (executeCommand remote gs fullCommand (snd (initAudio w)))
                 = snd (executeCommand remote gs fullCommand w)).
  { rewrite !executeCommand_world by assumption. reflexivity. }
  destruct (executeCommand remote gs fullCommand w) as [[] w1].
  destruct (executeCommand remote gs fullCommand (snd (initAudio w)))
    as [[] w2].
  simpl in Hsnd. rewrite Hsnd. reflexivity.
Qed.

(** What a scene click amounts to: one command, chosen by the target and
    the selection. *)
Lemma handleSceneClick_command (gs : GameState) (selectedVerb : option Verb.t)
    (selectedItem targetName : option string) (w : World) :
  handleSceneClick remote gs selectedVerb selectedItem targetName w
  = executeCommand remote gs
      (if truthy_str targetName then
         if Verb.is_Use selectedVerb && truthy_str selectedItem then
           "Use " +:+ or_default selectedItem "" +:+ " on "
             +:+ or_default targetName ""
         else
           match selectedVerb with
           | Some verb => Verb.value verb +:+ " " +:+ or_default targetName ""
           | None => "Look at " +:+ or_default targetName ""
           end
       else "Look at surroundings") w.
Proof.
  unfold handleSceneClick.
  destruct (isLoading gs || gameOver gs) eqn:Hguard.
  - rewrite executeCommand_blocked by exact Hguard. reflexivity.
  - unfold bind at 1. simpl.
    destruct (truthy_str targetName);
      [destruct (Verb.is_Use selectedVerb && truthy_str selectedItem);
         [| destruct selectedVerb] |];
      apply (executeCommand_after_initAudio gs _ w Hguard).
Qed.

End Handlers.

Lemma append_assoc (a b c : string) : (a +:+ b) +:+ c = a +:+ (b +:+ c).
Proof.
  induction a as [| ch a IH]; [reflexivity |].
  change (String ch ((a +:+ b) +:+ c) = String ch (a +:+ (b +:+ c))).
  f_equal. exact IH.
Qed.

(** X25.  While a turn is in flight or the game is over, no handler
    changes the game or sends a request: a click on the scene and a
    submitted input line do nothing at all, and a click on an inventory
    item can at most change the selected item.  An input line that is
    blank after trimming is ignored at any time. *)
Theorem handlers_guarded (remote : Remote) (trim : string -> string)
    (gs : GameState) (selectedVerb : option Verb.t)
    (selectedItem targetName : option string) (input item : string)
    (w : World) :
  (isLoading gs = true \/ gameOver gs = true ->
   handleSceneClick remote gs selectedVerb selectedItem targetName w = (tt, w)
   /\ handleCustomCommandSubmit remote trim gs input w = (tt, w)
   /\ gameState (snd (handleInventoryClick remote gs selectedVerb
                        selectedItem item w)) = gameState w
   /\ trace (snd (handleInventoryClick remote gs selectedVerb
                    selectedItem item w)) = trace w)
  /\ (trim input = "" ->
      handleCustomCommandSubmit remote trim gs input w = (tt, w)).
Proof.
  split.
  - intros Hguard.
    assert (Hor : isLoading gs || gameOver gs = true).
    { destruct Hguard as [-> | ->]; [reflexivity | apply orb_true_r]. }
    split; [unfold handleSceneClick; rewrite Hor; reflexivity |].
    split.
    + unfold handleCustomCommandSubmit.
      destruct (negb (String.eqb (trim input) "")); [| reflexivity].
      apply executeCommand_blocked, Hor.
    + unfold handleInventoryClick.
      destruct (Verb.is_Use selectedVerb && truthy_str selectedItem).
      * rewrite executeCommand_blocked by exact Hor. auto.
      * auto.
  - intros Hblank. unfold handleCustomCommandSubmit. rewrite Hblank.
    reflexivity.
Qed.

Lemma handlers_guarded_witness :
  handleSceneClick unreachable midTurn (Some Verb.Open) None (Some "key")
    (render midTurn false)
  = (tt, render midTurn false)
  /\ handleCustomCommandSubmit unreachable (fun _ => "") atLighthouse "   "
       (render atLighthouse false)
     = (tt, render atLighthouse false).
Proof.
  split.
  - apply (proj1 (handlers_guarded unreachable (fun _ => "") midTurn
                    (Some Verb.Open) None (Some "key") "" ""
                    (render midTurn false))).
    left. reflexivity.
  - apply (proj2 (handlers_guarded unreachable (fun _ => "") atLighthouse
                    None None None "   " "" (render atLighthouse false))).
    reflexivity.
Defined.

(** X26.  What a click on the scene runs.  With Use and an item selected
    it runs exactly the command line shown to the player followed by the
    target.  With any other selection the selected item plays no part:
    the verb, or "Look at" when none is selected, is applied to the
    target.  A click that hits no target looks at the surroundings,
    whatever is selected. *)
Theorem handleSceneClick_runs (remote : Remote) (gs : GameState)
    (selectedVerb : option Verb.t) (selectedItem : option string)
    (target : string) (w : World) :
  target <> "" ->
  (Verb.is_Use selectedVerb && truthy_str selectedItem = true ->
   handleSceneClick remote gs selectedVerb selectedItem (Some target) w
   = executeCommand remote gs
       (commandLine selectedVerb selectedItem +:+ target) w)
  /\ (Verb.is_Use selectedVerb && truthy_str selectedItem = false ->
      handleSceneClick remote gs selectedVerb selectedItem (Some target) w
      = executeCommand remote gs
          (match selectedVerb with
           | Some verb => Verb.value verb
           | None => "Look at"
           end +:+ " " +:+ target) w)
  /\ handleSceneClick remote gs selectedVerb selectedItem None w
     = executeCommand remote gs "Look at surroundings" w.
Proof.
  intros Htarget. apply String.eqb_neq in Htarget.
  rewrite !handleSceneClick_command. simpl. rewrite Htarget. simpl.
  split; [| split; [| reflexivity]].
  - intros Huse. rewrite Huse. apply andb_prop in Huse.
    destruct Huse as (Hverb & Hitem).
    destruct selectedVerb as [[] |]; try discriminate.
    destruct selectedItem as [selected |]; [| discriminate].
    unfold commandLine. simpl in *.
    apply negb_true_iff in Hitem. rewrite Hitem. simpl.
    rewrite !append_assoc. reflexivity.
  - intros Huse. rewrite Huse.
    destruct selectedVerb as [verb |]; [| reflexivity].
    reflexivity.
Qed.

Lemma handleSceneClick_runs_witness :
  handleSceneClick unreachable atLighthouse (Some Verb.Use) (Some "rope")
    (Some "key") (render atLighthouse false)
  = executeCommand unreachable atLighthouse
      (commandLine (Some Verb.Use) (Some "rope") +:+ "key")
      (render atLighthouse false).
Proof.
  apply (proj1 (handleSceneClick_runs unreachable atLighthouse
                  (Some Verb.Use) (Some "rope") "key"
                  (render atLighthouse false) ltac:(discriminate))).
  reflexivity.
Defined.

(** X27.  What a click on an inventory item does.  With Use and an item
    selected it runs the command line shown to the player followed by the
    clicked item.  Otherwise it only makes the clicked item the selected
    one: nothing is sent and the game state stays as it is. *)
Theorem handleInventoryClick_runs (remote : Remote) (gs : GameState)
    (verb : option Verb.t) (selected : option string)
    (item : string) (w : World) :
  (Verb.is_Use verb && truthy_str selected = true ->
   handleInventoryClick remote gs verb selected item w
   = executeCommand remote gs (commandLine verb selected +:+ item) w)
  /\ (Verb.is_Use verb && truthy_str selected = false ->
      let w' := snd (handleInventoryClick remote gs verb selected item w) in
      selectedItem w' = Some item
      /\ selectedVerb w' = selectedVerb w
      /\ gameState w' = gameState w
      /\ trace w' = trace w).
Proof.
  unfold handleInventoryClick. split.
  - intros Huse. rewrite Huse. apply andb_prop in Huse.
    destruct Huse as (Hverb & Hitem).
    destruct verb as [[] |]; try discriminate.
    destruct selected as [held |]; [| discriminate].
    unfold commandLine. simpl in *.
    apply negb_true_iff in Hitem. rewrite Hitem. simpl.
    rewrite !append_assoc. reflexivity.
  - intros Huse. rewrite Huse. simpl. auto.
Qed.

Lemma handleInventoryClick_runs_witness :
  selectedItem
    (snd (handleInventoryClick unreachable atLighthouse (Some Verb.Give) None
            "rope" (render atLighthouse false)))
  = Some "rope"
  /\ handleInventoryClick unreachable atLighthouse (Some Verb.Use)
       (Some "rope") "key" (render atLighthouse false)
     = executeCommand unreachable atLighthouse
         (commandLine (Some Verb.Use) (Some "rope") +:+ "key")
         (render atLighthouse false).
Proof.
  split.
  - apply (proj2 (handleInventoryClick_runs unreachable atLighthouse
                    (Some Verb.Give) None "rope" (render atLighthouse false))).
    reflexivity.
  - apply (proj1 (handleInventoryClick_runs unreachable atLighthouse
                    (Some Verb.Use) (Some "rope") "key"
                    (render atLighthouse false))).
    reflexivity.
Defined.

(** X28.  Coming back to a scene: when a turn moves to a scene for which
    the cache lookup finds an artifact with an image and the response
    asks for no redraw, the turn displays exactly the cached image and
    hotspots, and sends neither an image request nor a detection
    request. *)
Theorem executeCommand_revisit (remote : Remote) (gs : GameState)
    (fullCommand : string) (w : World) (cached : SceneData) :
  isLoading gs = false -> gameOver gs = false -> gameState w = gs ->
  let response := turnResponse remote gs fullCommand in
  let final := snd (executeCommand remote gs fullCommand w) in
  Some (scene_id response) <> currentSceneId gs ->
  trigger_visual_update response = false ->
  SceneCache.get (sceneCache gs) (scene_id response)
  = SceneCache.Artifact cached ->
  sd_imageUrl cached <> "" ->
  imageUrl (gameState final) = Some (sd_imageUrl cached)
  /\ hotspots (gameState final) = sd_hotspots cached
  /\ trace final
     = trace w
         ++ [ActionRequest fullCommand (historyContext (history gs))
               (inventory gs) (currentSceneId gs);
             VisualUpdateEntered (scene_id response) false]
         ++ (if isMuted w then [] else [SpeechRequest (narrative response)]).
Proof.
  intros Hloading Hover Hw response final Hmoved Htrigger Hcached Himg.
  unfold final.
  rewrite (executeCommand_world remote gs fullCommand w Hloading Hover).
  fold response.
  pose proof (resolveVisuals_cases remote gs response
                (awaitingVisuals gs fullCommand w)) as (_ & Hcases).
  simpl in Hcases.
  assert (Hneeds : needsUpdate gs response = true)
    by (apply needsUpdate_iff; now left).
  assert (Htest : cacheTest gs (scene_id response)
                    (trigger_visual_update response)
                  = SceneCache.Artifact cached).
  { unfold cacheTest. rewrite Htrigger. exact Hcached. }
  rewrite Hneeds, Htest, Htrigger in Hcases. rewrite Hcases. simpl.
  apply String.eqb_neq in Himg.
  unfold or_str. simpl. rewrite Himg. simpl.
  rewrite <- !List.app_assoc. simpl. auto.
Qed.

Lemma executeCommand_revisit_witness :
  imageUrl
    (gameState
       (snd (executeCommand (scripted (Parsed descend) MediaRejected Rejected)
               atTop "Walk down" (render atTop false))))
  = Some (sd_imageUrl lighthouse).
Proof.
  apply (executeCommand_revisit
           (scripted (Parsed descend) MediaRejected Rejected)
           atTop "Walk down" (render atTop false) lighthouse
           eq_refl eq_refl eq_refl).
  - discriminate.
  - reflexivity.
  - reflexivity.
  - discriminate.
Defined.

(** X29.  Which turns are left in flight.  From a state whose cache has
    no artifact as prototype, a turn that passes the guard ends with
    [isLoading] still true exactly when the response moves to another
    scene without asking for a redraw, the cache has no entry under the
    scene id of the response, and that id names a member every object
    inherits ("constructor", "toString", "__proto__" and the like). *)
Theorem executeCommand_stuck_iff (remote : Remote) (gs : GameState)
    (fullCommand : string) (w : World) :
  isLoading gs = false -> gameOver gs = false ->
  SceneCache.prototype (sceneCache gs) = None ->
  let response := turnResponse remote gs fullCommand in
  let final := gameState (snd (executeCommand remote gs fullCommand w)) in
  isLoading final = true
  <-> Some (scene_id response) <> currentSceneId gs
      /\ trigger_visual_update response = false
      /\ SceneCache.entries (sceneCache gs) !! scene_id response = None
      /\ In (scene_id response) SceneCache.Object_prototype_members.
Proof.
  intros Hloading Hover Hplain response final.
  assert (Hflight : isLoading final = throws gs response).
  { unfold final. destruct (throws gs response) eqn:Hthrows.
    - rewrite (executeCommand_aborted remote gs fullCommand w Hloading Hover
                 Hthrows).
      reflexivity.
    - destruct (executeCommand_committed remote gs fullCommand w Hloading
                  Hover Hthrows) as (newImage & newHotspots & _ & ->).
      reflexivity. }
  rewrite Hflight, throws_iff, needsUpdate_iff, <- existsb_eqb_In.
  unfold cacheTest.
  destruct (sceneCache gs) as [entries proto].
  cbn [SceneCache.prototype] in Hplain. subst proto.
  rewrite get_plain. cbn [SceneCache.entries].
  generalize (existsb (String.eqb (scene_id response))
                SceneCache.Object_prototype_members).
  intros member.
  destruct (trigger_visual_update response), (entries !! scene_id response),
    member; cbn [negb]; intuition (try discriminate).
Qed.

Lemma executeCommand_stuck_iff_witness :
  isLoading
    (gameState
       (snd (executeCommand (scripted (Parsed wander) MediaRejected Rejected)
               started "Walk away" (render started false))))
  = true.
Proof.
  apply (executeCommand_stuck_iff
           (scripted (Parsed wander) MediaRejected Rejected)
           started "Walk away" (render started false)
           eq_refl eq_refl eq_refl).
  split; [discriminate |]. split; [reflexivity |]. split; [reflexivity |].
  simpl. auto.
Defined.
